(** * Disk-head scheduling engine: FCFS, SSTF, SCAN and C-SCAN

    A shallow embedding of the [DiskScheduler] class of [disk_logic.py],
    of its second copy kept in [disk_sheduling.py], of the input
    validation and the button handler of [main_gui.py] and of the request
    marks of the two plots, followed by their properties.

    Python integers are unbounded and are modelled by [Z].  The engine
    object is a record that is threaded through a small state and
    exception monad: a raised exception keeps the attribute values the
    object had when it was raised.  Python floats are modelled by exact
    rationals [Q]: rounding and the limited range of a double are outside
    the model. *)

From Stdlib Require Import ZArith QArith List Ascii String Lia Bool.
From Stdlib Require Import Sorted Permutation.
Import ListNotations.

Close Scope Q_scope.
Open Scope Z_scope.

(** ** Python run-time model *)

(** The exceptions the modelled statements can raise. *)
Inductive exn : Type :=
| AttributeError      (* an attribute read before it is assigned *)
| UnboundLocalError   (* a local read before it is assigned *)
| ValueError          (* [min] of an empty list, [list.remove] of an absent item *)
| ZeroDivisionError.

Inductive outcome (A : Type) : Type :=
| Ok (a : A)
| Raise (e : exn)
| Diverge.            (* the iteration budget of a [while] loop ran out *)

Arguments Ok {A} a.
Arguments Raise {A} e.
Arguments Diverge {A}.

(** A number returned by the engine: an [int] or a [float]. *)
Inductive number : Type :=
| PyInt (z : Z)
| PyFloat (q : Q).


(** [sorted(l)] and [sorted(l, reverse=True)]: a stable sort, ascending or
    descending. *)
Fixpoint insert_by (le : Z -> Z -> bool) (x : Z) (l : list Z) : list Z :=
  match l with
  | [] => [x]
  | y :: ys => if le x y then x :: l else y :: insert_by le x ys
  end.

Definition sort_order (reverse : bool) : Z -> Z -> bool :=
  if reverse then Z.geb else Z.leb.

Definition sorted (reverse : bool) (l : list Z) : list Z :=
  fold_right (insert_by (sort_order reverse)) [] l.

(** [min(l, key=key)]: the first item whose key is minimal; [ValueError]
    on the empty list. *)
Definition py_min (key : Z -> Z) (l : list Z) : option Z :=
  match l with
  | [] => None
  | x :: xs =>
      Some (fold_left (fun best item => if key item <? key best then item else best) xs x)
  end.

(** [l.remove(x)]: drops the first item equal to [x]; [ValueError] when
    there is none. *)
Fixpoint py_remove (x : Z) (l : list Z) : option (list Z) :=
  match l with
  | [] => None
  | y :: ys =>
      if y =? x then Some ys
      else match py_remove x ys with
           | Some ys' => Some (y :: ys')
           | None => None
           end
  end.

(** [a / b] on two ints and on an int and a float (true division). *)
Definition py_truediv (a b : Q) : outcome Q :=
  if Qeq_bool b (inject_Z 0) then Raise ZeroDivisionError else Ok (Qdiv a b).

Definition Qgt_bool (a b : Q) : bool := negb (Qle_bool a b).

(** ** Configuration constants *)

Definition MAX_TRACK : Z := 199.
Definition MIN_TRACK : Z := 0.
Definition SEEK_TIME_PER_TRACK : Q := inject_Z 1.

(** ** The engine object *)

Record DiskScheduler : Type := mkDiskScheduler {
  initial_requests : list Z;
  initial_head : Z;
  head_position : Z;
  total_seek_time : Z;
  movement_sequence : list Z;
  requests : option (list Z)     (* assigned by [simulate] only *)
}.

(** [DiskScheduler(requests, initial_head)] *)
Definition __init__ (reqs : list Z) (head : Z) : DiskScheduler :=
  {| initial_requests := reqs;
     initial_head := head;
     head_position := head;
     total_seek_time := 0;
     movement_sequence := [head];
     requests := None |}.

(** What [simulate] returns: the tuple of four [None], or the movement
    sequence with the three metrics. *)
Inductive simulate_result : Type :=
| AllNone
| Result (sequence : list Z) (total_seek : Z) (avg_seek throughput : number).

(** ** State and exception monad over the engine object *)

Definition M (A : Type) : Type := DiskScheduler -> outcome A * DiskScheduler.

Definition ret {A} (a : A) : M A := fun self => (Ok a, self).

Definition bind {A B} (c : M A) (k : A -> M B) : M B :=
  fun self =>
    match c self with
    | (Ok a, self') => k a self'
    | (Raise e, self') => (Raise e, self')
    | (Diverge, self') => (Diverge, self')
    end.

Definition raise {A} (e : exn) : M A := fun self => (Raise e, self).
Definition diverge {A} : M A := fun self => (Diverge, self).
Definition get : M DiskScheduler := fun self => (Ok self, self).
Definition lift {A} (o : outcome A) : M A := fun self => (o, self).

Declare Scope py_scope.
Delimit Scope py_scope with py.
Notation "x <- c ;; k" := (bind c (fun x => k))
  (at level 61, c at next level, right associativity) : py_scope.
Notation "c ;; k" := (bind c (fun _ => k))
  (at level 61, right associativity) : py_scope.
Open Scope py_scope.

(** Attribute reads and writes. *)
Definition get_requests : M (list Z) :=
  fun self =>
    match requests self with
    | Some l => (Ok l, self)
    | None => (Raise AttributeError, self)
    end.

Definition set_head_position (v : Z) : M unit :=
  fun self =>
    (Ok tt, {| initial_requests := initial_requests self;
               initial_head := initial_head self;
               head_position := v;
               total_seek_time := total_seek_time self;
               movement_sequence := movement_sequence self;
               requests := requests self |}).

Definition set_total_seek_time (v : Z) : M unit :=
  fun self =>
    (Ok tt, {| initial_requests := initial_requests self;
               initial_head := initial_head self;
               head_position := head_position self;
               total_seek_time := v;
               movement_sequence := movement_sequence self;
               requests := requests self |}).

Definition set_movement_sequence (v : list Z) : M unit :=
  fun self =>
    (Ok tt, {| initial_requests := initial_requests self;
               initial_head := initial_head self;
               head_position := head_position self;
               total_seek_time := total_seek_time self;
               movement_sequence := v;
               requests := requests self |}).

Definition set_requests (v : list Z) : M unit :=
  fun self =>
    (Ok tt, {| initial_requests := initial_requests self;
               initial_head := initial_head self;
               head_position := head_position self;
               total_seek_time := total_seek_time self;
               movement_sequence := movement_sequence self;
               requests := Some v |}).

(** The three statements every algorithm runs once a seek is known:
    [self.total_seek_time += seek; self.head_position = next_track;
     self.movement_sequence.append(next_track)]. *)
Definition record_move (seek next_track : Z) : M unit :=
  self <- get ;;
  set_total_seek_time (total_seek_time self + seek) ;;
  set_head_position next_track ;;
  self <- get ;;
  set_movement_sequence (movement_sequence self ++ [next_track]).

(** [enumerate(l)], [t in l] and [[l[i] for i in indices]]; indexing past
    the end is [IndexError], here [None]. *)
Fixpoint enumerate_from (start : nat) (l : list Z) : list (nat * Z) :=
  match l with
  | [] => []
  | t :: rest => (start, t) :: enumerate_from (S start) rest
  end.

Definition py_in (t : Z) (l : list Z) : bool := existsb (Z.eqb t) l.

Fixpoint index_all (l : list Z) (indices : list nat) : option (list Z) :=
  match indices with
  | [] => Some []
  | i :: rest =>
      match nth_error l i, index_all l rest with
      | Some v, Some vs => Some (v :: vs)
      | _, _ => None
      end
  end.

(** ** disk_logic.py *)

Module disk_logic.

Definition _calculate_metrics : M (Z * number * number) :=
  self <- get ;;
  let total_time := Qmult (inject_Z (total_seek_time self)) SEEK_TIME_PER_TRACK in
  let num_requests := Z.of_nat (List.length (initial_requests self)) in
  avg_seek_time <-
    (if negb (num_requests =? 0)
     then q <- lift (py_truediv (inject_Z (total_seek_time self)) (inject_Z num_requests)) ;;
          ret (PyFloat q)
     else ret (PyInt 0)) ;;
  throughput <-
    (if Qgt_bool total_time (inject_Z 0)
     then q <- lift (py_truediv (inject_Z num_requests) total_time) ;;
          ret (PyFloat q)
     else ret (PyInt 0)) ;;
  ret (total_seek_time self, avg_seek_time, throughput).

(** [while current_requests: next_track = current_requests.pop(0); ...] *)
Fixpoint fcfs_loop (current_requests : list Z) : M unit :=
  match current_requests with
  | [] => ret tt
  | next_track :: rest =>
      self <- get ;;
      let seek := Z.abs (next_track - head_position self) in
      record_move seek next_track ;;
      fcfs_loop rest
  end.

Definition _fcfs : M unit :=
  current_requests <- get_requests ;;
  fcfs_loop current_requests.

(** The [while current_requests:] loop of [_sstf]; [fuel] bounds the
    number of iterations. *)
Fixpoint sstf_loop (fuel : nat) (current_requests : list Z) : M unit :=
  match current_requests with
  | [] => ret tt
  | _ :: _ =>
      match fuel with
      | O => diverge
      | S fuel' =>
          self <- get ;;
          match py_min (fun track => Z.abs (track - head_position self)) current_requests with
          | None => raise ValueError
          | Some next_track =>
              let seek := Z.abs (next_track - head_position self) in
              record_move seek next_track ;;
              match py_remove next_track current_requests with
              | None => raise ValueError
              | Some current_requests' => sstf_loop fuel' current_requests'
              end
          end
      end
  end.

Definition _sstf : M unit :=
  current_requests <- get_requests ;;
  sstf_loop (List.length current_requests) current_requests.

(** The seek computed for one step of the final loop of
    [_scan_or_cscan]. *)
Definition scan_seek (algorithm : string) (head_position next_track : Z) : Z :=
  let seek := Z.abs (next_track - head_position) in
  if (algorithm =? "C-SCAN")%string &&
     (((head_position =? MAX_TRACK) && (next_track =? MIN_TRACK)) ||
      ((head_position =? MIN_TRACK) && (next_track =? MAX_TRACK)))
  then 0
  else seek.

(** [for next_track in sequence: ...] *)
Fixpoint seek_loop (algorithm : string) (sequence : list Z) : M unit :=
  match sequence with
  | [] => ret tt
  | next_track :: rest =>
      self <- get ;;
      record_move (scan_seek algorithm (head_position self) next_track) next_track ;;
      seek_loop algorithm rest
  end.

(** The locals [current_list], [other_list] and [boundaries] after the
    [if direction == 'UP': ... elif direction == 'DOWN': ...] block;
    [None] stands for [current_list] and [other_list] being unbound. *)
Definition scan_locals (algorithm direction : string) (lower upper : list Z)
  : option (list Z * list Z) * list Z :=
  if (direction =? "UP")%string then
    let current_list := sorted false upper in
    let other_list := sorted false lower in
    if (algorithm =? "SCAN")%string then
      (Some (current_list, rev other_list), [MAX_TRACK])
    else if (algorithm =? "C-SCAN")%string then
      (Some (current_list, other_list), [MAX_TRACK; MIN_TRACK])
    else (Some (current_list, other_list), [])
  else if (direction =? "DOWN")%string then
    let current_list := sorted true lower in
    let other_list := sorted true upper in
    if (algorithm =? "SCAN")%string then
      (Some (current_list, rev other_list), [MIN_TRACK])
    else if (algorithm =? "C-SCAN")%string then
      (Some (current_list, other_list), [MIN_TRACK; MAX_TRACK])
    else (Some (current_list, other_list), [])
  else (None, []).

(** The list [sequence] built from the locals. *)
Definition scan_sequence (algorithm direction : string) (lower upper : list Z)
    (current_list other_list boundaries : list Z) : list Z :=
  current_list ++
  (if (algorithm =? "SCAN")%string then boundaries ++ other_list
   else if (algorithm =? "C-SCAN")%string then
     boundaries ++
     (if (direction =? "UP")%string then sorted false lower
      else if (direction =? "DOWN")%string then sorted true upper
      else [])
   else []).

Definition _scan_or_cscan (algorithm direction : string) : M unit :=
  self_requests <- get_requests ;;
  self <- get ;;
  let requests := sorted false self_requests in
  let current_head := initial_head self in
  let lower := filter (fun r => r <? current_head) requests in
  let upper := filter (fun r => r >=? current_head) requests in
  match scan_locals algorithm direction lower upper with
  | (None, _) => raise UnboundLocalError
  | (Some (current_list, other_list), boundaries) =>
      seek_loop algorithm
        (scan_sequence algorithm direction lower upper current_list other_list boundaries)
  end.

(** The method the [if ... elif ... else] chain of [simulate] selects;
    [None] is the final [else] branch. *)
Definition dispatch (algorithm direction : string) : option (M unit) :=
  if (algorithm =? "FCFS")%string then Some _fcfs
  else if (algorithm =? "SSTF")%string then Some _sstf
  else if (algorithm =? "SCAN")%string || (algorithm =? "C-SCAN")%string
       then Some (_scan_or_cscan algorithm direction)
  else None.

Definition simulate (algorithm direction : string) : M simulate_result :=
  self <- get ;;
  set_head_position (initial_head self) ;;
  set_requests (initial_requests self) ;;
  set_total_seek_time 0 ;;
  set_movement_sequence [initial_head self] ;;
  match dispatch algorithm direction with
  | None => ret AllNone
  | Some run =>
      run ;;
      metrics <- _calculate_metrics ;;
      let '(total_seek, avg_seek, throughput) := metrics in
      self <- get ;;
      ret (Result (movement_sequence self) total_seek avg_seek throughput)
  end.

End disk_logic.


(** ** disk_sheduling.py: the second copy of the class *)

Module disk_sheduling.

Definition scan_seek (algorithm : string) (head_position next_track : Z) : Z :=
  let seek := Z.abs (next_track - head_position) in
  if (algorithm =? "C-SCAN")%string &&
     (((head_position =? MAX_TRACK) && (next_track =? MIN_TRACK)) ||
      ((head_position =? MIN_TRACK) && (next_track =? MAX_TRACK)))
  then 0
  else seek.

Fixpoint seek_loop (algorithm : string) (sequence : list Z) : M unit :=
  match sequence with
  | [] => ret tt
  | next_track :: rest =>
      self <- get ;;
      record_move (scan_seek algorithm (head_position self) next_track) next_track ;;
      seek_loop algorithm rest
  end.

(** Here [other_list] is sorted in its final order at once, and nothing
    is reversed afterwards. *)
Definition scan_locals (algorithm direction : string) (lower upper : list Z)
  : option (list Z * list Z) * list Z :=
  if (direction =? "UP")%string then
    let current_list := sorted false upper in
    let other_list := sorted true lower in
    if (algorithm =? "SCAN")%string then
      (Some (current_list, other_list), [MAX_TRACK])
    else if (algorithm =? "C-SCAN")%string then
      (Some (current_list, other_list), [MAX_TRACK; MIN_TRACK])
    else (Some (current_list, other_list), [])
  else if (direction =? "DOWN")%string then
    let current_list := sorted true lower in
    let other_list := sorted false upper in
    if (algorithm =? "SCAN")%string then
      (Some (current_list, other_list), [MIN_TRACK])
    else if (algorithm =? "C-SCAN")%string then
      (Some (current_list, other_list), [MIN_TRACK; MAX_TRACK])
    else (Some (current_list, other_list), [])
  else (None, []).

Definition scan_sequence (algorithm direction : string) (lower upper : list Z)
    (current_list other_list boundaries : list Z) : list Z :=
  current_list ++
  (if (algorithm =? "SCAN")%string then boundaries ++ other_list
   else if (algorithm =? "C-SCAN")%string then
     boundaries ++
     (if (direction =? "UP")%string then sorted false lower
      else if (direction =? "DOWN")%string then sorted true upper
      else [])
   else []).

Definition _scan_or_cscan (algorithm direction : string) : M unit :=
  self_requests <- get_requests ;;
  self <- get ;;
  let requests := sorted false self_requests in
  let current_head := initial_head self in
  let lower := filter (fun r => r <? current_head) requests in
  let upper := filter (fun r => r >=? current_head) requests in
  match scan_locals algorithm direction lower upper with
  | (None, _) => raise UnboundLocalError
  | (Some (current_list, other_list), boundaries) =>
      seek_loop algorithm
        (scan_sequence algorithm direction lower upper current_list other_list boundaries)
  end.

(** The rest of the class, as [disk_sheduling.py] has it. *)
Definition _calculate_metrics : M (Z * number * number) :=
  self <- get ;;
  let total_time := Qmult (inject_Z (total_seek_time self)) SEEK_TIME_PER_TRACK in
  let num_requests := Z.of_nat (List.length (initial_requests self)) in
  avg_seek_time <-
    (if negb (num_requests =? 0)
     then q <- lift (py_truediv (inject_Z (total_seek_time self)) (inject_Z num_requests)) ;;
          ret (PyFloat q)
     else ret (PyInt 0)) ;;
  throughput <-
    (if Qgt_bool total_time (inject_Z 0)
     then q <- lift (py_truediv (inject_Z num_requests) total_time) ;;
          ret (PyFloat q)
     else ret (PyInt 0)) ;;
  ret (total_seek_time self, avg_seek_time, throughput).

Fixpoint fcfs_loop (current_requests : list Z) : M unit :=
  match current_requests with
  | [] => ret tt
  | next_track :: rest =>
      self <- get ;;
      let seek := Z.abs (next_track - head_position self) in
      record_move seek next_track ;;
      fcfs_loop rest
  end.

Definition _fcfs : M unit :=
  current_requests <- get_requests ;;
  fcfs_loop current_requests.

Fixpoint sstf_loop (fuel : nat) (current_requests : list Z) : M unit :=
  match current_requests with
  | [] => ret tt
  | _ :: _ =>
      match fuel with
      | O => diverge
      | S fuel' =>
          self <- get ;;
          match py_min (fun track => Z.abs (track - head_position self)) current_requests with
          | None => raise ValueError
          | Some next_track =>
              let seek := Z.abs (next_track - head_position self) in
              record_move seek next_track ;;
              match py_remove next_track current_requests with
              | None => raise ValueError
              | Some current_requests' => sstf_loop fuel' current_requests'
              end
          end
      end
  end.

Definition _sstf : M unit :=
  current_requests <- get_requests ;;
  sstf_loop (List.length current_requests) current_requests.

Definition dispatch (algorithm direction : string) : option (M unit) :=
  if (algorithm =? "FCFS")%string then Some _fcfs
  else if (algorithm =? "SSTF")%string then Some _sstf
  else if (algorithm =? "SCAN")%string || (algorithm =? "C-SCAN")%string
       then Some (_scan_or_cscan algorithm direction)
  else None.

Definition simulate (algorithm direction : string) : M simulate_result :=
  self <- get ;;
  set_head_position (initial_head self) ;;
  set_requests (initial_requests self) ;;
  set_total_seek_time 0 ;;
  set_movement_sequence [initial_head self] ;;
  match dispatch algorithm direction with
  | None => ret AllNone
  | Some run =>
      run ;;
      metrics <- _calculate_metrics ;;
      let '(total_seek, avg_seek, throughput) := metrics in
      self <- get ;;
      ret (Result (movement_sequence self) total_seek avg_seek throughput)
  end.

(** The three lists [plot_sequence] hands to [scatter]: the positions
    after the first whose track is one of the requests. *)
Definition request_indices (y requests : list Z) : list nat :=
  map fst (filter (fun p => py_in (snd p) requests && (0 <? fst p)%nat)
             (enumerate_from 0 y)).

Definition request_tracks (sequence requests : list Z) : option (list Z) :=
  let y := sequence in
  index_all y (request_indices y requests).

Definition request_x (sequence requests : list Z) : option (list Z) :=
  let x := map Z.of_nat (seq 0 (List.length sequence)) in
  let y := sequence in
  index_all x (request_indices y requests).

End disk_sheduling.

(** ** disk_plotter.py *)

Module disk_plotter.

(** The loop of [plot_sequence] that marks the requests served; the
    result lists the arguments [(x[i], y[i])] of its calls of [scatter]. *)
Fixpoint scatter_loop (x y served_requests : list Z) (items : list (nat * Z))
  : option (list (Z * Z)) :=
  match items with
  | [] => Some []
  | (i, track) :: rest =>
      if py_in track served_requests && (0 <? i)%nat then
        match nth_error x i, nth_error y i with
        | Some xi, Some yi =>
            match scatter_loop x y served_requests rest with
            | Some points => Some ((xi, yi) :: points)
            | None => None
            end
        | _, _ => None
        end
      else scatter_loop x y served_requests rest
  end.

Definition plot_sequence (sequence requests : list Z) : option (list (Z * Z)) :=
  let x := map Z.of_nat (seq 0 (List.length sequence)) in
  let y := sequence in
  let served_requests := requests in
  scatter_loop x y served_requests (enumerate_from 0 y).

End disk_plotter.

(** ** main_gui.py *)

Module main_gui.

(** The four message boxes of [validate_inputs]. *)
Inductive input_error : Type :=
| HeadOutOfRange
| EmptyRequestList
| TrackOutOfRange (r : Z)
| NotIntegers.

(** What pressing the button leads to: a message of [validate_inputs],
    the results handed to [update_results] and [plot_sequence], or the
    message that the algorithm could not be run. *)
Inductive shown : Type :=
| InputRejected (e : input_error)
| ResultsShown (sequence : list Z) (total_seek : Z) (avg_seek throughput : number)
| CouldNotRun.

Section Builtins.

(** [int(s)], with [None] for [ValueError], [s.strip()] and
    [s.split(',')]: the properties below hold whatever these three do on
    the text of the entry fields. *)
Variable py_int : string -> option Z.
Variable py_strip : string -> string.
Variable py_split : string -> list string.

(** [[int(r.strip()) for r in parts if r.strip()]] *)
Fixpoint parse_requests (parts : list string) : option (list Z) :=
  match parts with
  | [] => Some []
  | r :: rest =>
      if (py_strip r =? "")%string then parse_requests rest
      else match py_int (py_strip r) with
           | None => None
           | Some n =>
               match parse_requests rest with
               | Some ns => Some (n :: ns)
               | None => None
               end
           end
  end.

(** [for r in requests: if not (MIN_TRACK <= r <= MAX_TRACK): ...] *)
Fixpoint first_outside (requests : list Z) : option Z :=
  match requests with
  | [] => None
  | r :: rest =>
      if negb ((MIN_TRACK <=? r) && (r <=? MAX_TRACK)) then Some r
      else first_outside rest
  end.

Definition validate_inputs (head_var requests_var : string)
  : input_error + (list Z * Z) :=
  match py_int (py_strip head_var) with
  | None => inl NotIntegers
  | Some head =>
      if negb ((MIN_TRACK <=? head) && (head <=? MAX_TRACK)) then inl HeadOutOfRange
      else
        match parse_requests (py_split requests_var) with
        | None => inl NotIntegers
        | Some requests =>
            match requests with
            | [] => inl EmptyRequestList
            | _ :: _ =>
                match first_outside requests with
                | Some r => inl (TrackOutOfRange r)
                | None => inr (requests, head)
                end
            end
        end
  end.

Definition run_simulation (head_var requests_var algorithm_var direction_var : string)
  : outcome shown :=
  match validate_inputs head_var requests_var with
  | inl e => Ok (InputRejected e)
  | inr (requests, initial_head) =>
      let algorithm := algorithm_var in
      let direction := direction_var in
      let scheduler := __init__ requests initial_head in
      match fst (disk_logic.simulate algorithm direction scheduler) with
      | Ok (Result sequence total_seek avg_seek throughput) =>
          Ok (ResultsShown sequence total_seek avg_seek throughput)
      | Ok AllNone => Ok CouldNotRun
      | Raise e => Raise e
      | Diverge => Diverge
      end
  end.

End Builtins.

End main_gui.

(** A reading of the three built-ins on ASCII text: ASCII white space is
    stripped, fields are cut at commas, and a numeral is an optional sign
    followed by decimal digits, single underscores allowed between
    digits. *)
Module ascii_text.

Definition is_blank (c : Ascii.ascii) : bool :=
  let n := Ascii.nat_of_ascii c in
  ((n =? 32) || ((9 <=? n) && (n <=? 13)) || ((28 <=? n) && (n <=? 31)))%nat.

Fixpoint lstrip (s : string) : string :=
  match s with
  | String c rest => if is_blank c then lstrip rest else s
  | EmptyString => EmptyString
  end.

Fixpoint rstrip (s : string) : string :=
  match s with
  | String c rest =>
      match rstrip rest with
      | EmptyString => if is_blank c then EmptyString else String c EmptyString
      | rest' => String c rest'
      end
  | EmptyString => EmptyString
  end.

Definition strip (s : string) : string := rstrip (lstrip s).

Fixpoint split_from (field : string) (s : string) : list string :=
  match s with
  | EmptyString => [field]
  | String c rest =>
      if Ascii.eqb c ","%char then field :: split_from EmptyString rest
      else split_from (field ++ String c EmptyString)%string rest
  end.

Definition split (s : string) : list string := split_from EmptyString s.

(** Decimal digits, with single underscores allowed between two digits;
    [after_digit] tells whether the character before was a digit. *)
Fixpoint digits (acc : Z) (after_digit : bool) (s : string) : option Z :=
  match s with
  | EmptyString => if after_digit then Some acc else None
  | String c rest =>
      let n := Ascii.nat_of_ascii c in
      if ((48 <=? n) && (n <=? 57))%nat
      then digits (10 * acc + Z.of_nat (n - 48)) true rest
      else if Ascii.eqb c "_"%char && after_digit
      then digits acc false rest
      else None
  end.

Definition int (s : string) : option Z :=
  match strip s with
  | EmptyString => None
  | String c rest =>
      if Ascii.eqb c "-"%char then option_map Z.opp (digits 0 false rest)
      else if Ascii.eqb c "+"%char then digits 0 false rest
      else digits 0 false (String c rest)
  end.

End ascii_text.

(** ** Vocabulary of the properties *)

(** The four algorithm names and the two directions [simulate] knows. *)
Inductive Algorithm : Type := FCFS | SSTF | SCAN | C_SCAN.
Inductive Direction : Type := UP | DOWN.

Definition algorithm_name (a : Algorithm) : string :=
  match a with
  | FCFS => "FCFS"
  | SSTF => "SSTF"
  | SCAN => "SCAN"
  | C_SCAN => "C-SCAN"
  end.

Definition direction_name (d : Direction) : string :=
  match d with
  | UP => "UP"
  | DOWN => "DOWN"
  end.

(** What a caller sees of one [simulate] call on a fresh engine. *)
Definition run (algorithm direction : string) (reqs : list Z) (head : Z)
  : outcome simulate_result :=
  fst (disk_logic.simulate algorithm direction (__init__ reqs head)).

(** The engine right after the four resetting assignments of
    [simulate]. *)
Definition reset (self : DiskScheduler) : DiskScheduler :=
  {| initial_requests := initial_requests self;
     initial_head := initial_head self;
     head_position := initial_head self;
     total_seek_time := 0;
     movement_sequence := [initial_head self];
     requests := Some (initial_requests self) |}.

(** The engine after the head has visited [sequence] at a total cost of
    [cost]. *)
Definition moved (self : DiskScheduler) (sequence : list Z) (cost : Z) : DiskScheduler :=
  {| initial_requests := initial_requests self;
     initial_head := initial_head self;
     head_position := last sequence (head_position self);
     total_seek_time := total_seek_time self + cost;
     movement_sequence := movement_sequence self ++ sequence;
     requests := requests self |}.

(** Distance between two tracks, and the cost of a path that charges
    [charge current next] on every transition. *)
Definition distance (current next : Z) : Z := Z.abs (next - current).

Fixpoint path_cost (charge : Z -> Z -> Z) (head : Z) (sequence : list Z) : Z :=
  match sequence with
  | [] => 0
  | next :: rest => charge head next + path_cost charge next rest
  end.

(** What one transition is charged under each algorithm. *)
Definition charge_of (a : Algorithm) : Z -> Z -> Z :=
  match a with
  | FCFS | SSTF => distance
  | SCAN | C_SCAN => disk_logic.scan_seek (algorithm_name a)
  end.

(** A transition whose two ends are the two disk boundaries. *)
Definition boundary_pair (current next : Z) : bool :=
  ((current =? MAX_TRACK) && (next =? MIN_TRACK)) ||
  ((current =? MIN_TRACK) && (next =? MAX_TRACK)).

Fixpoint count_boundary_pairs (head : Z) (sequence : list Z) : Z :=
  match sequence with
  | [] => 0
  | next :: rest =>
      (if boundary_pair head next then 1 else 0) + count_boundary_pairs next rest
  end.

(** The total the seek-accounting rule prescribes for a C-SCAN movement
    sequence whose return stroke is its transition number [jump]: every
    transition costs its distance, that one costs nothing. *)
Fixpoint cscan_rule_total (jump : nat) (head : Z) (sequence : list Z) : Z :=
  match sequence with
  | [] => 0
  | next :: rest =>
      match jump with
      | O => path_cost distance next rest
      | S jump' => distance head next + cscan_rule_total jump' next rest
      end
  end.

(** [m] is the item of [l] at index [i], no item of [l] has a smaller
    key, and every item before index [i] has a strictly larger one. *)
Definition first_minimum (key : Z -> Z) (l : list Z) (i : nat) (m : Z) : Prop :=
  nth_error l i = Some m /\
  (forall j r, nth_error l j = Some r -> key m <= key r) /\
  (forall j r, (j < i)%nat -> nth_error l j = Some r -> key m < key r).

(** [l] without its item at index [i]. *)
Definition without (i : nat) (l : list Z) : list Z := firstn i l ++ skipn (S i) l.

(** The service order the SSTF rule prescribes from [head] on the pool
    [pool]: the request at the smallest distance from the head, the
    earliest one in the pool among equals, then the order the rule
    prescribes from that request on the pool without exactly that item. *)
Inductive nearest_first : Z -> list Z -> list Z -> Prop :=
| nearest_first_done (head : Z) : nearest_first head [] []
| nearest_first_next (head : Z) (pool : list Z) (i : nat) (next : Z) (order : list Z) :
    first_minimum (distance head) pool i next ->
    nearest_first next (without i pool) order ->
    nearest_first head pool (next :: order).

(** The order [sorted] sorts by, as a relation. *)
Definition order_rel (reverse : bool) : Z -> Z -> Prop :=
  if reverse then Z.ge else Z.le.

Definition ascending (l : list Z) : Prop := Sorted Z.le l.
Definition descending (l : list Z) : Prop := Sorted Z.ge l.

(** The boundary tracks an algorithm adds to the tracks it services. *)
Definition boundaries_of (a : Algorithm) (d : Direction) : list Z :=
  match a, d with
  | FCFS, _ | SSTF, _ => []
  | SCAN, UP => [MAX_TRACK]
  | SCAN, DOWN => [MIN_TRACK]
  | C_SCAN, UP => [MAX_TRACK; MIN_TRACK]
  | C_SCAN, DOWN => [MIN_TRACK; MAX_TRACK]
  end.

(** The two groups of section 4.1: requests below the head, and requests
    at or above it. *)
Definition lower_group (head : Z) (reqs : list Z) : list Z :=
  filter (fun r => r <? head) reqs.

Definition upper_group (head : Z) (reqs : list Z) : list Z :=
  filter (fun r => r >=? head) reqs.

(** The value of the local [sequence] of [_scan_or_cscan] under the two
    sweeping algorithms and the two directions. *)
Definition sweep_sequence (a : Algorithm) (d : Direction) (head : Z) (reqs : list Z)
  : list Z :=
  let lower := lower_group head (sorted false reqs) in
  let upper := upper_group head (sorted false reqs) in
  match a, d with
  | SCAN, UP => sorted false upper ++ [MAX_TRACK] ++ rev (sorted false lower)
  | SCAN, DOWN => sorted true lower ++ [MIN_TRACK] ++ rev (sorted true upper)
  | C_SCAN, UP => sorted false upper ++ [MAX_TRACK; MIN_TRACK] ++ sorted false lower
  | C_SCAN, DOWN => sorted true lower ++ [MIN_TRACK; MAX_TRACK] ++ sorted true upper
  | _, _ => []
  end.

(** The two metrics as section 3 of the specification defines them. *)
Definition average_seek_of (total_seek : Z) (count : nat) : number :=
  if (Z.of_nat count =? 0) then PyInt 0
  else PyFloat (Qdiv (inject_Z total_seek) (inject_Z (Z.of_nat count))).

Definition throughput_of (total_seek : Z) (count : nat) : number :=
  if (total_seek =? 0) then PyInt 0
  else PyFloat (Qdiv (inject_Z (Z.of_nat count))
                     (Qmult (inject_Z total_seek) SEEK_TIME_PER_TRACK)).

(** A position of the movement sequence that the plots mark as a request
    served. *)
Definition marked (requests : list Z) (p : nat * Z) : bool :=
  py_in (snd p) requests && (0 <? fst p)%nat.

(** A track inside the disk. *)
Definition in_range (track : Z) : Prop := MIN_TRACK <= track <= MAX_TRACK.

(** ** The monad on concrete engines *)

Lemma moved_nil (self : DiskScheduler) : moved self [] 0 = self.
Proof.
  destruct self; unfold moved; simpl.
  rewrite Z.add_0_r, app_nil_r. reflexivity.
Qed.

Lemma last_cons_default (x d : Z) (s : list Z) : last (x :: s) d = last s x.
Proof.
  revert x d. induction s as [|y s IH]; intros x d; [reflexivity|].
  change (last (y :: s) d = last (y :: s) x).
  rewrite (IH y d), (IH y x). reflexivity.
Qed.

Lemma last_app_default (s1 s2 : list Z) (d : Z) :
  last (s1 ++ s2) d = last s2 (last s1 d).
Proof.
  revert d. induction s1 as [|x s1 IH]; intros d; [reflexivity|].
  rewrite <- app_comm_cons, !last_cons_default. apply IH.
Qed.

Lemma moved_moved (self : DiskScheduler) (s1 s2 : list Z) (c1 c2 : Z) :
  moved (moved self s1 c1) s2 c2 = moved self (s1 ++ s2) (c1 + c2).
Proof.
  unfold moved; simpl.
  rewrite last_app_default, Z.add_assoc, app_assoc. reflexivity.
Qed.

Lemma record_move_run (seek next_track : Z) (self : DiskScheduler) :
  record_move seek next_track self = (Ok tt, moved self [next_track] seek).
Proof. reflexivity. Qed.

Lemma bind_run {A B} (c : M A) (k : A -> M B) (self self' : DiskScheduler) (a : A) :
  c self = (Ok a, self') -> bind c k self = k a self'.
Proof. intros H. unfold bind. rewrite H. reflexivity. Qed.

Lemma path_cost_app (charge : Z -> Z -> Z) (head : Z) (s1 s2 : list Z) :
  path_cost charge head (s1 ++ s2)
  = path_cost charge head s1 + path_cost charge (last s1 head) s2.
Proof.
  revert head. induction s1 as [|x s1 IH]; intros head.
  - reflexivity.
  - change (charge head x + path_cost charge x (s1 ++ s2)
            = charge head x + path_cost charge x s1 + path_cost charge (last (x :: s1) head) s2).
    rewrite IH, last_cons_default. lia.
Qed.

(** ** The three loops in closed form *)

Lemma fcfs_loop_run (current_requests : list Z) (self : DiskScheduler) :
  disk_logic.fcfs_loop current_requests self
  = (Ok tt, moved self current_requests
              (path_cost distance (head_position self) current_requests)).
Proof.
  revert self. induction current_requests as [|t rest IH]; intros self.
  - simpl. rewrite moved_nil. reflexivity.
  - cbn [disk_logic.fcfs_loop].
    unfold bind at 1. unfold get at 1. cbv beta iota.
    rewrite (bind_run _ _ _ _ _ (record_move_run _ _ _)).
    rewrite IH, moved_moved. reflexivity.
Qed.

Lemma seek_loop_run (algorithm : string) (sequence : list Z) (self : DiskScheduler) :
  disk_logic.seek_loop algorithm sequence self
  = (Ok tt, moved self sequence
              (path_cost (disk_logic.scan_seek algorithm) (head_position self) sequence)).
Proof.
  revert self. induction sequence as [|t rest IH]; intros self.
  - simpl. rewrite moved_nil. reflexivity.
  - cbn [disk_logic.seek_loop].
    unfold bind at 1. unfold get at 1. cbv beta iota.
    rewrite (bind_run _ _ _ _ _ (record_move_run _ _ _)).
    rewrite IH, moved_moved. reflexivity.
Qed.

(** ** [sorted]: a sorted permutation, and the only one *)

Section Sorting.

Variable reverse : bool.

Lemma sort_order_spec (x y : Z) :
  sort_order reverse x y = true <-> order_rel reverse x y.
Proof.
  destruct reverse; simpl.
  - rewrite Z.geb_le. lia.
  - apply Z.leb_le.
Qed.

Lemma order_rel_total (x y : Z) :
  sort_order reverse x y = false -> order_rel reverse y x.
Proof.
  destruct reverse; simpl; intros H.
  - assert (~ (y <= x)) by (rewrite <- Z.geb_le, H; discriminate). lia.
  - apply Z.leb_gt in H. lia.
Qed.

Lemma order_rel_trans (x y z : Z) :
  order_rel reverse x y -> order_rel reverse y z -> order_rel reverse x z.
Proof. destruct reverse; simpl; lia. Qed.

Lemma order_rel_antisym (x y : Z) :
  order_rel reverse x y -> order_rel reverse y x -> x = y.
Proof. destruct reverse; simpl; lia. Qed.

Lemma order_rel_negb (x y : Z) :
  order_rel (negb reverse) x y <-> order_rel reverse y x.
Proof. destruct reverse; simpl; lia. Qed.

Lemma insert_by_perm (le : Z -> Z -> bool) (x : Z) (l : list Z) :
  Permutation (insert_by le x l) (x :: l).
Proof.
  induction l as [|y ys IH]; simpl; [reflexivity|].
  destruct (le x y); [reflexivity|].
  rewrite IH. apply perm_swap.
Qed.

Lemma sorted_perm (l : list Z) : Permutation (sorted reverse l) l.
Proof.
  induction l as [|x l IH]; simpl; [reflexivity|].
  change (Permutation (insert_by (sort_order reverse) x (sorted reverse l)) (x :: l)).
  rewrite insert_by_perm, IH. reflexivity.
Qed.

Lemma insert_by_strongly_sorted (x : Z) (l : list Z) :
  StronglySorted (order_rel reverse) l ->
  StronglySorted (order_rel reverse) (insert_by (sort_order reverse) x l).
Proof.
  induction 1 as [|y ys Hs IH Hy]; simpl.
  - constructor; constructor.
  - destruct (sort_order reverse x y) eqn:E.
    + apply sort_order_spec in E.
      constructor; [constructor; assumption|].
      constructor; [assumption|].
      eapply Forall_impl; [|exact Hy].
      intros z Hz. eapply order_rel_trans; eassumption.
    + apply order_rel_total in E.
      constructor; [assumption|].
      eapply Permutation_Forall; [symmetry; apply insert_by_perm|].
      constructor; assumption.
Qed.

Lemma sorted_strongly_sorted (l : list Z) :
  StronglySorted (order_rel reverse) (sorted reverse l).
Proof.
  induction l as [|x l IH]; simpl; [constructor|].
  apply insert_by_strongly_sorted, IH.
Qed.

Lemma strongly_sorted_unique (l1 l2 : list Z) :
  StronglySorted (order_rel reverse) l1 ->
  StronglySorted (order_rel reverse) l2 ->
  Permutation l1 l2 -> l1 = l2.
Proof.
  intros H1. revert l2.
  induction H1 as [|x xs Hxs IH Hx]; intros l2 H2 HP.
  - apply Permutation_nil in HP. congruence.
  - destruct H2 as [|y ys Hys Hy].
    + apply Permutation_sym, Permutation_nil in HP. discriminate.
    + assert (x = y) as ->.
      { assert (In x (y :: ys)) as Hin1
          by (eapply Permutation_in; [exact HP|left; reflexivity]).
        assert (In y (x :: xs)) as Hin2
          by (eapply Permutation_in; [symmetry; exact HP|left; reflexivity]).
        destruct Hin1 as [->|Hin1]; [reflexivity|].
        destruct Hin2 as [->|Hin2]; [reflexivity|].
        rewrite Forall_forall in Hx, Hy.
        apply order_rel_antisym; auto. }
      f_equal. apply IH; [assumption|].
      eapply Permutation_cons_inv; exact HP.
Qed.

Lemma strongly_sorted_rev (l : list Z) :
  StronglySorted (order_rel reverse) l ->
  StronglySorted (order_rel (negb reverse)) (rev l).
Proof.
  induction 1 as [|x xs Hxs IH Hx]; simpl; [constructor|].
  revert IH. generalize (rev xs) (Permutation_rev xs). intros r HP IH.
  assert (Forall (fun z => order_rel (negb reverse) z x) r) as Hr.
  { eapply Permutation_Forall; [exact HP|].
    eapply Forall_impl; [|exact Hx]. intros z Hz. apply order_rel_negb, Hz. }
  clear HP. induction IH as [|z zs Hzs IHz Hz]; simpl.
  - constructor; constructor.
  - inversion Hr; subst. constructor; [auto|].
    apply Forall_app. split; [assumption|]. constructor; [assumption|constructor].
Qed.

End Sorting.

(** [other_list.reverse()] after [sorted(...)] is [sorted] with the
    opposite [reverse] flag. *)
Lemma rev_sorted (reverse : bool) (l : list Z) :
  rev (sorted reverse l) = sorted (negb reverse) l.
Proof.
  apply (strongly_sorted_unique (negb reverse)).
  - apply strongly_sorted_rev, sorted_strongly_sorted.
  - apply sorted_strongly_sorted.
  - rewrite <- Permutation_rev, !sorted_perm. reflexivity.
Qed.

Lemma sorted_ascending (l : list Z) : ascending (sorted false l).
Proof. apply StronglySorted_Sorted, (sorted_strongly_sorted false). Qed.

Lemma sorted_descending (l : list Z) : descending (sorted true l).
Proof. apply StronglySorted_Sorted, (sorted_strongly_sorted true). Qed.

Lemma filter_perm (f : Z -> bool) (l1 l2 : list Z) :
  Permutation l1 l2 -> Permutation (filter f l1) (filter f l2).
Proof.
  induction 1 as [|x l1 l2 HP IH|x y l|l1 l2 l3 H1 IH1 H2 IH2]; simpl.
  - reflexivity.
  - destruct (f x); [constructor|]; assumption.
  - destruct (f x), (f y); try reflexivity. apply perm_swap.
  - etransitivity; eassumption.
Qed.

(** The primary and the secondary group, in the four orders the sweeps
    use, related to the request list as it was given. *)
Lemma sorted_group_perm (reverse : bool) (f : Z -> bool) (reqs : list Z) :
  Permutation (sorted reverse (filter f (sorted false reqs))) (filter f reqs).
Proof. rewrite sorted_perm. apply filter_perm, sorted_perm. Qed.

(** ** [simulate] in closed form *)

Lemma path_cost_distance_nonneg (head : Z) (sequence : list Z) :
  0 <= path_cost distance head sequence.
Proof.
  revert head. induction sequence as [|t rest IH]; intros head; simpl; [lia|].
  specialize (IH t). unfold distance at 1. lia.
Qed.

Lemma scan_seek_nonneg (algorithm : string) (current next : Z) :
  0 <= disk_logic.scan_seek algorithm current next.
Proof.
  unfold disk_logic.scan_seek.
  destruct (_ && _); lia.
Qed.

Lemma path_cost_scan_nonneg (algorithm : string) (head : Z) (sequence : list Z) :
  0 <= path_cost (disk_logic.scan_seek algorithm) head sequence.
Proof.
  revert head. induction sequence as [|t rest IH]; intros head; simpl; [lia|].
  specialize (IH t). pose proof (scan_seek_nonneg algorithm head t). lia.
Qed.

(** The metrics in every state of the engine: both divisions are
    guarded. *)
Lemma calculate_metrics_always (self : DiskScheduler) :
  disk_logic._calculate_metrics self
  = (Ok (total_seek_time self,
         average_seek_of (total_seek_time self) (List.length (initial_requests self)),
         if total_seek_time self <=? 0 then PyInt 0
         else PyFloat (Qdiv (inject_Z (Z.of_nat (List.length (initial_requests self))))
                            (Qmult (inject_Z (total_seek_time self)) SEEK_TIME_PER_TRACK))),
     self).
Proof.
  unfold disk_logic._calculate_metrics, average_seek_of.
  set (n := Z.of_nat (List.length (initial_requests self))).
  set (total := total_seek_time self) in *.
  unfold bind at 1, get at 1. cbv beta iota.
  assert (avg :
    (if negb (n =? 0)
     then q <- lift (py_truediv (inject_Z total) (inject_Z n)) ;; ret (PyFloat q)
     else ret (PyInt 0)) self
    = (Ok (if n =? 0 then PyInt 0 else PyFloat (Qdiv (inject_Z total) (inject_Z n))), self)).
  { destruct (n =? 0) eqn:En; simpl; [reflexivity|].
    unfold bind, lift, py_truediv, Qeq_bool. simpl.
    apply Z.eqb_neq in En.
    destruct (n * 1 =? 0) eqn:E; [apply Z.eqb_eq in E; lia|reflexivity]. }
  rewrite (bind_run _ _ _ _ _ avg). clear avg.
  assert (thr :
    (if Qgt_bool (Qmult (inject_Z total) SEEK_TIME_PER_TRACK) (inject_Z 0)
     then q <- lift (py_truediv (inject_Z n) (Qmult (inject_Z total) SEEK_TIME_PER_TRACK)) ;;
          ret (PyFloat q)
     else ret (PyInt 0)) self
    = (Ok (if total <=? 0 then PyInt 0
           else PyFloat (Qdiv (inject_Z n) (Qmult (inject_Z total) SEEK_TIME_PER_TRACK))), self)).
  { unfold Qgt_bool, Qle_bool, SEEK_TIME_PER_TRACK. simpl.
    destruct (Z.leb_spec total 0) as [Hle|Hgt].
    - destruct (total * 1 * 1 <=? 0) eqn:E; [reflexivity|apply Z.leb_gt in E; lia].
    - destruct (total * 1 * 1 <=? 0) eqn:E; [apply Z.leb_le in E; lia|]. simpl.
      unfold bind, lift, py_truediv, Qeq_bool. simpl.
      destruct (total * 1 * 1 =? 0) eqn:E'; [apply Z.eqb_eq in E'; lia|reflexivity]. }
  rewrite (bind_run _ _ _ _ _ thr). reflexivity.
Qed.

Lemma calculate_metrics_run (self : DiskScheduler) :
  0 <= total_seek_time self ->
  disk_logic._calculate_metrics self
  = (Ok (total_seek_time self,
         average_seek_of (total_seek_time self) (List.length (initial_requests self)),
         throughput_of (total_seek_time self) (List.length (initial_requests self))),
     self).
Proof.
  intros Hpos. rewrite calculate_metrics_always. unfold throughput_of.
  destruct (Z.leb_spec (total_seek_time self) 0), (Z.eqb_spec (total_seek_time self) 0);
    first [reflexivity | lia].
Qed.

Lemma simulate_unknown (algorithm direction : string) (self : DiskScheduler) :
  disk_logic.dispatch algorithm direction = None ->
  disk_logic.simulate algorithm direction self = (Ok AllNone, reset self).
Proof.
  intros H. unfold disk_logic.simulate. rewrite H. reflexivity.
Qed.

Lemma simulate_known (algorithm direction : string) (self : DiskScheduler)
    (method : M unit) (sequence : list Z) (cost : Z) :
  disk_logic.dispatch algorithm direction = Some method ->
  method (reset self) = (Ok tt, moved (reset self) sequence cost) ->
  0 <= cost ->
  disk_logic.simulate algorithm direction self
  = (Ok (Result (initial_head self :: sequence) cost
           (average_seek_of cost (List.length (initial_requests self)))
           (throughput_of cost (List.length (initial_requests self)))),
     moved (reset self) sequence cost).
Proof.
  intros Hd Hm Hpos. unfold disk_logic.simulate. rewrite Hd.
  unfold bind at 1, get at 1. cbv beta iota.
  unfold bind at 1, set_head_position at 1. cbv beta iota.
  unfold bind at 1, set_requests at 1. cbv beta iota.
  unfold bind at 1, set_total_seek_time at 1. cbv beta iota.
  unfold bind at 1, set_movement_sequence at 1. cbv beta iota.
  cbn [initial_requests initial_head head_position total_seek_time movement_sequence requests].
  change (mkDiskScheduler (initial_requests self) (initial_head self) (initial_head self) 0
            [initial_head self] (Some (initial_requests self))) with (reset self).
  rewrite (bind_run _ _ _ _ _ Hm).
  assert (0 <= total_seek_time (moved (reset self) sequence cost)) as Htotal
    by (simpl; lia).
  rewrite (bind_run _ _ _ _ _ (calculate_metrics_run _ Htotal)).
  reflexivity.
Qed.

(** A failed method leaves [simulate] with the same exception. *)
Lemma simulate_raises (algorithm direction : string) (self self' : DiskScheduler)
    (method : M unit) (e : exn) :
  disk_logic.dispatch algorithm direction = Some method ->
  method (reset self) = (Raise e, self') ->
  disk_logic.simulate algorithm direction self = (Raise e, self').
Proof.
  intros Hd Hm. unfold disk_logic.simulate. rewrite Hd.
  unfold bind, get, set_head_position, set_requests, set_total_seek_time,
    set_movement_sequence. cbn [initial_requests initial_head head_position
    total_seek_time movement_sequence requests].
  change (mkDiskScheduler (initial_requests self) (initial_head self) (initial_head self) 0
            [initial_head self] (Some (initial_requests self))) with (reset self).
  rewrite Hm. reflexivity.
Qed.

(** ** [min] and [list.remove] *)

Lemma min_fold_first (key : Z -> Z) (xs pre : list Z) (best : Z) (i : nat) :
  first_minimum key pre i best ->
  exists i',
    first_minimum key (pre ++ xs) i'
      (fold_left (fun best item => if key item <? key best then item else best) xs best).
Proof.
  revert pre best i. induction xs as [|y ys IH]; intros pre best i Hmin.
  - exists i. rewrite app_nil_r. exact Hmin.
  - simpl. replace (pre ++ y :: ys) with ((pre ++ [y]) ++ ys)
      by (rewrite <- app_assoc; reflexivity).
    destruct Hmin as (Hi & Hall & Hbefore).
    assert (i < List.length pre)%nat as Hlen by (apply nth_error_Some; congruence).
    destruct (key y <? key best) eqn:E.
    + apply Z.ltb_lt in E. apply (IH _ _ (List.length pre)).
      repeat split.
      * rewrite nth_error_app2, Nat.sub_diag by lia. reflexivity.
      * intros j r Hj.
        destruct (Nat.lt_ge_cases j (List.length pre)) as [Hlt|Hge].
        -- rewrite nth_error_app1 in Hj by assumption.
           specialize (Hall _ _ Hj). lia.
        -- rewrite nth_error_app2 in Hj by assumption.
           destruct (j - List.length pre)%nat as [|k]; simpl in Hj.
           ++ injection Hj as <-. lia.
           ++ destruct k; discriminate.
      * intros j r Hlt Hj. rewrite nth_error_app1 in Hj by assumption.
        specialize (Hall _ _ Hj). lia.
    + apply Z.ltb_ge in E. apply (IH _ _ i).
      repeat split.
      * rewrite nth_error_app1 by assumption. exact Hi.
      * intros j r Hj.
        destruct (Nat.lt_ge_cases j (List.length pre)) as [Hlt|Hge].
        -- rewrite nth_error_app1 in Hj by assumption. eapply Hall; eassumption.
        -- rewrite nth_error_app2 in Hj by assumption.
           destruct (j - List.length pre)%nat as [|k]; simpl in Hj.
           ++ injection Hj as <-. exact E.
           ++ destruct k; discriminate.
      * intros j r Hlt Hj. rewrite nth_error_app1 in Hj by lia.
        eapply Hbefore; eassumption.
Qed.

Lemma py_min_first (key : Z -> Z) (x : Z) (xs : list Z) :
  exists i m, py_min key (x :: xs) = Some m /\ first_minimum key (x :: xs) i m.
Proof.
  destruct (min_fold_first key xs [x] x 0) as [i Hi].
  - repeat split.
    + intros [|[|j]] r Hj; simpl in Hj; try discriminate.
      injection Hj as <-. lia.
    + intros j r Hlt. lia.
  - exists i. eexists. split; [reflexivity|exact Hi].
Qed.

Lemma py_remove_at (m : Z) (l : list Z) (i : nat) :
  nth_error l i = Some m ->
  (forall j r, (j < i)%nat -> nth_error l j = Some r -> r <> m) ->
  py_remove m l = Some (without i l).
Proof.
  revert i. induction l as [|y ys IH]; intros i Hi Hbefore.
  - destruct i; discriminate.
  - destruct i as [|i]; simpl in Hi.
    + injection Hi as ->. simpl. rewrite Z.eqb_refl. reflexivity.
    + simpl. assert (y <> m) as Hy by (apply (Hbefore 0%nat); [lia|reflexivity]).
      apply Z.eqb_neq in Hy. rewrite Hy.
      rewrite (IH i Hi); [reflexivity|].
      intros j r Hlt Hj. apply (Hbefore (S j)); [lia|exact Hj].
Qed.

Lemma py_remove_first_minimum (key : Z -> Z) (l : list Z) (i : nat) (m : Z) :
  first_minimum key l i m -> py_remove m l = Some (without i l).
Proof.
  intros (Hi & _ & Hbefore). apply py_remove_at; [exact Hi|].
  intros j r Hlt Hj ->. specialize (Hbefore _ _ Hlt Hj). lia.
Qed.

Lemma without_split (l : list Z) (i : nat) (m : Z) :
  nth_error l i = Some m -> l = firstn i l ++ m :: skipn (S i) l.
Proof.
  revert i. induction l as [|y ys IH]; intros [|i] Hi; try discriminate.
  - injection Hi as ->. reflexivity.
  - simpl. f_equal. apply IH, Hi.
Qed.

Lemma without_perm (l : list Z) (i : nat) (m : Z) :
  nth_error l i = Some m -> Permutation (m :: without i l) l.
Proof.
  intros Hi. rewrite (without_split l i m Hi) at 2.
  apply Permutation_middle.
Qed.

Lemma without_length (l : list Z) (i : nat) (m : Z) :
  nth_error l i = Some m -> S (List.length (without i l)) = List.length l.
Proof.
  intros Hi. exact (Permutation_length (without_perm l i m Hi)).
Qed.

(** ** The SSTF loop *)

Lemma sstf_loop_step (fuel : nat) (current_requests : list Z) (self : DiskScheduler) :
  current_requests <> [] ->
  exists i next_track,
    first_minimum (distance (head_position self)) current_requests i next_track /\
    disk_logic.sstf_loop (S fuel) current_requests self
    = disk_logic.sstf_loop fuel (without i current_requests)
        (moved self [next_track] (distance (head_position self) next_track)).
Proof.
  intros Hne. destruct current_requests as [|x xs]; [congruence|].
  destruct (py_min_first (distance (head_position self)) x xs) as (i & m & Hmin & Hfirst).
  exists i, m. split; [exact Hfirst|].
  cbn [disk_logic.sstf_loop].
  unfold bind at 1, get at 1. cbv beta iota.
  change (fun track : Z => Z.abs (track - head_position self))
    with (distance (head_position self)).
  rewrite Hmin.
  rewrite (bind_run _ _ _ _ _ (record_move_run _ _ _)).
  rewrite (py_remove_first_minimum _ _ _ _ Hfirst). reflexivity.
Qed.

Lemma sstf_loop_total (fuel : nat) (current_requests : list Z) (self : DiskScheduler) :
  (List.length current_requests <= fuel)%nat ->
  exists order,
    Permutation order current_requests /\
    disk_logic.sstf_loop fuel current_requests self
    = (Ok tt, moved self order (path_cost distance (head_position self) order)).
Proof.
  revert current_requests self.
  induction fuel as [|fuel IH]; intros current_requests self Hlen.
  - destruct current_requests; [|simpl in Hlen; lia].
    exists []. split; [reflexivity|]. simpl. rewrite moved_nil. reflexivity.
  - destruct current_requests as [|x xs].
    + exists []. split; [reflexivity|]. simpl. rewrite moved_nil. reflexivity.
    + destruct (sstf_loop_step fuel (x :: xs) self) as (i & m & Hfirst & Hstep);
        [discriminate|].
      pose proof (without_length _ _ _ (proj1 Hfirst)) as Hl.
      destruct (IH (without i (x :: xs))
                  (moved self [m] (distance (head_position self) m)))
        as (order & HP & Hrun); [simpl in *; lia|].
      exists (m :: order). split.
      * rewrite HP. apply without_perm, Hfirst.
      * rewrite Hstep, Hrun, moved_moved. reflexivity.
Qed.

(** ** The methods on a freshly reset engine *)

Lemma fcfs_run (self : DiskScheduler) :
  disk_logic._fcfs (reset self)
  = (Ok tt, moved (reset self) (initial_requests self)
              (path_cost distance (initial_head self) (initial_requests self))).
Proof.
  unfold disk_logic._fcfs, bind, get_requests. simpl.
  apply (fcfs_loop_run _ (reset self)).
Qed.

Lemma sstf_run (self : DiskScheduler) :
  exists order,
    Permutation order (initial_requests self) /\
    disk_logic._sstf (reset self)
    = (Ok tt, moved (reset self) order (path_cost distance (initial_head self) order)).
Proof.
  destruct (sstf_loop_total (List.length (initial_requests self))
              (initial_requests self) (reset self) (le_n _)) as (order & HP & Hrun).
  exists order. split; [exact HP|].
  unfold disk_logic._sstf, bind, get_requests. simpl. exact Hrun.
Qed.

Lemma scan_or_cscan_run (algorithm direction : string) (self : DiskScheduler) :
  let lower := lower_group (initial_head self) (sorted false (initial_requests self)) in
  let upper := upper_group (initial_head self) (sorted false (initial_requests self)) in
  disk_logic._scan_or_cscan algorithm direction (reset self)
  = match disk_logic.scan_locals algorithm direction lower upper with
    | (None, _) => (Raise UnboundLocalError, reset self)
    | (Some (current_list, other_list), boundaries) =>
        let sequence :=
          disk_logic.scan_sequence algorithm direction lower upper
            current_list other_list boundaries in
        (Ok tt, moved (reset self) sequence
                  (path_cost (disk_logic.scan_seek algorithm) (initial_head self) sequence))
    end.
Proof.
  intros lower upper.
  unfold disk_logic._scan_or_cscan, bind, get_requests, get. simpl.
  fold (lower_group (initial_head self) (sorted false (initial_requests self))).
  fold (upper_group (initial_head self) (sorted false (initial_requests self))).
  fold lower. fold upper.
  destruct (disk_logic.scan_locals algorithm direction lower upper)
    as [[[current_list other_list]|] boundaries].
  - apply (seek_loop_run _ _ (reset self)).
  - reflexivity.
Qed.

Lemma sweep_run (a : Algorithm) (d : Direction) (self : DiskScheduler) :
  a = SCAN \/ a = C_SCAN ->
  let sequence := sweep_sequence a d (initial_head self) (initial_requests self) in
  disk_logic._scan_or_cscan (algorithm_name a) (direction_name d) (reset self)
  = (Ok tt, moved (reset self) sequence
              (path_cost (disk_logic.scan_seek (algorithm_name a)) (initial_head self) sequence)).
Proof.
  intros Ha sequence. rewrite scan_or_cscan_run.
  destruct Ha as [-> | ->]; destruct d; reflexivity.
Qed.

(** Every recognised algorithm returns a movement sequence and the three
    metrics; the engine then stands where the sequence ends. *)
Lemma simulate_recognised (a : Algorithm) (d : Direction) (self : DiskScheduler) :
  exists serviced cost,
    disk_logic.simulate (algorithm_name a) (direction_name d) self
    = (Ok (Result (initial_head self :: serviced) cost
             (average_seek_of cost (List.length (initial_requests self)))
             (throughput_of cost (List.length (initial_requests self)))),
       moved (reset self) serviced cost)
    /\ 0 <= cost
    /\ cost = path_cost (charge_of a) (initial_head self) serviced
    /\ match a with
       | FCFS => serviced = initial_requests self
       | SSTF => Permutation serviced (initial_requests self)
       | SCAN | C_SCAN =>
           serviced = sweep_sequence a d (initial_head self) (initial_requests self)
       end.
Proof.
  destruct a.
  - eexists _, _. split; [|split; [|split; reflexivity]].
    + eapply simulate_known; [reflexivity|apply fcfs_run|apply path_cost_distance_nonneg].
    + apply path_cost_distance_nonneg.
  - destruct (sstf_run self) as (order & HP & Hrun).
    exists order. eexists. split; [|split; [|split; [reflexivity|exact HP]]].
    + eapply simulate_known; [reflexivity|exact Hrun|apply path_cost_distance_nonneg].
    + apply path_cost_distance_nonneg.
  - eexists _, _. split; [|split; [|split; reflexivity]].
    + eapply simulate_known;
        [reflexivity|apply (sweep_run SCAN d self); auto|apply path_cost_scan_nonneg].
    + apply path_cost_scan_nonneg.
  - eexists _, _. split; [|split; [|split; reflexivity]].
    + eapply simulate_known;
        [reflexivity|apply (sweep_run C_SCAN d self); auto|apply path_cost_scan_nonneg].
    + apply path_cost_scan_nonneg.
Qed.

(** A direction other than the two known ones leaves [current_list]
    unbound: SCAN and C-SCAN raise, on the reset engine. *)
Lemma unknown_direction_raises (a : Algorithm) (direction : string) (self : DiskScheduler) :
  a = SCAN \/ a = C_SCAN ->
  direction <> "UP"%string -> direction <> "DOWN"%string ->
  disk_logic.simulate (algorithm_name a) direction self
  = (Raise UnboundLocalError, reset self).
Proof.
  intros Ha Hup Hdown.
  apply String.eqb_neq in Hup, Hdown.
  apply (simulate_raises _ _ _ _ (disk_logic._scan_or_cscan (algorithm_name a) direction)).
  - destruct Ha as [-> | ->]; reflexivity.
  - rewrite scan_or_cscan_run. unfold disk_logic.scan_locals.
    rewrite Hup, Hdown. reflexivity.
Qed.

Lemma groups_partition (head : Z) (reqs : list Z) :
  Permutation (upper_group head reqs ++ lower_group head reqs) reqs.
Proof.
  unfold upper_group, lower_group.
  induction reqs as [|r reqs IH]; simpl; [reflexivity|].
  rewrite Z.geb_leb. destruct (Z.ltb_spec r head) as [Hlt|Hge].
  - destruct (Z.leb_spec head r) as [Hle|_]; [lia|].
    rewrite <- Permutation_middle. constructor. exact IH.
  - destruct (Z.leb_spec head r) as [_|Hlt]; [|lia].
    simpl. constructor. exact IH.
Qed.

Lemma sweep_perm (primary secondary boundaries g1 g2 reqs : list Z) :
  Permutation primary g1 -> Permutation secondary g2 ->
  Permutation (g1 ++ g2) reqs ->
  Permutation (primary ++ boundaries ++ secondary) (reqs ++ boundaries).
Proof.
  intros H1 H2 H. rewrite H1, H2, <- H.
  rewrite (Permutation_app_comm boundaries g2), app_assoc. reflexivity.
Qed.

Lemma sweep_sequence_perm (a : Algorithm) (d : Direction) (head : Z) (reqs : list Z) :
  a = SCAN \/ a = C_SCAN ->
  Permutation (sweep_sequence a d head reqs) (reqs ++ boundaries_of a d).
Proof.
  pose proof (groups_partition head reqs) as Hpart.
  assert (Permutation (lower_group head reqs ++ upper_group head reqs) reqs) as Hpart'
    by (rewrite Permutation_app_comm; exact Hpart).
  intros [-> | ->]; destruct d; unfold sweep_sequence; cbn [boundaries_of].
  - eapply sweep_perm; [apply sorted_group_perm| |exact Hpart].
    rewrite <- Permutation_rev. apply sorted_group_perm.
  - eapply sweep_perm; [apply sorted_group_perm| |exact Hpart'].
    rewrite <- Permutation_rev. apply sorted_group_perm.
  - eapply sweep_perm; [apply sorted_group_perm|apply sorted_group_perm|exact Hpart].
  - eapply sweep_perm; [apply sorted_group_perm|apply sorted_group_perm|exact Hpart'].
Qed.

(** ** The order SSTF services in *)

Lemma first_minimum_unique (key : Z -> Z) (l : list Z) (i j : nat) (m m' : Z) :
  first_minimum key l i m -> first_minimum key l j m' -> i = j /\ m = m'.
Proof.
  intros (Hi & Halli & Hbi) (Hj & Hallj & Hbj).
  assert (i = j) as ->.
  { destruct (Nat.lt_trichotomy i j) as [Hlt|[Heq|Hgt]]; [|exact Heq|].
    - specialize (Hbj _ _ Hlt Hi). specialize (Halli _ _ Hj). lia.
    - specialize (Hbi _ _ Hgt Hj). specialize (Hallj _ _ Hi). lia. }
  split; [reflexivity|congruence].
Qed.

Lemma nearest_first_unique (head : Z) (pool order1 order2 : list Z) :
  nearest_first head pool order1 -> nearest_first head pool order2 -> order1 = order2.
Proof.
  intros H1. revert order2.
  induction H1 as [head|head pool i next order Hmin _ IH]; intros order2 H2.
  - inversion H2 as [|? ? j next' ? Hmin' _]; subst; [reflexivity|].
    destruct Hmin' as (Hj & _). destruct j; discriminate.
  - inversion H2 as [|? ? j next' order' Hmin' Hrest]; subst.
    + destruct Hmin as (Hi & _). destruct i; discriminate.
    + destruct (first_minimum_unique _ _ _ _ _ _ Hmin Hmin') as [<- <-].
      f_equal. apply IH, Hrest.
Qed.

Lemma nearest_first_perm (head : Z) (pool order : list Z) :
  nearest_first head pool order -> Permutation order pool.
Proof.
  induction 1 as [head|head pool i next order Hmin _ IH]; [reflexivity|].
  rewrite IH. apply without_perm, Hmin.
Qed.

(** The loop of [_sstf], given enough iterations, services the pool in
    the order the rule prescribes. *)
Lemma sstf_loop_nearest_first
    (fuel : nat) (current_requests : list Z) (self : DiskScheduler) :
  (List.length current_requests <= fuel)%nat ->
  exists order,
    nearest_first (head_position self) current_requests order /\
    disk_logic.sstf_loop fuel current_requests self
    = (Ok tt, moved self order (path_cost distance (head_position self) order)).
Proof.
  revert current_requests self.
  induction fuel as [|fuel IH]; intros current_requests self Hlen.
  - destruct current_requests; [|simpl in Hlen; lia].
    exists []. split; [constructor|]. simpl. rewrite moved_nil. reflexivity.
  - destruct current_requests as [|x xs].
    + exists []. split; [constructor|]. simpl. rewrite moved_nil. reflexivity.
    + destruct (sstf_loop_step fuel (x :: xs) self) as (i & m & Hfirst & Hstep);
        [discriminate|].
      pose proof (without_length _ _ _ (proj1 Hfirst)) as Hl.
      destruct (IH (without i (x :: xs))
                  (moved self [m] (distance (head_position self) m)))
        as (order & Hchain & Hrun); [simpl in *; lia|].
      exists (m :: order). split.
      * econstructor; [exact Hfirst|exact Hchain].
      * rewrite Hstep, Hrun, moved_moved. reflexivity.
Qed.

Lemma sstf_run_nearest_first (reqs : list Z) (head : Z) (direction : string) :
  exists order,
    nearest_first head reqs order /\
    run "SSTF" direction reqs head
    = Ok (Result (head :: order) (path_cost distance head order)
            (average_seek_of (path_cost distance head order) (List.length reqs))
            (throughput_of (path_cost distance head order) (List.length reqs))).
Proof.
  destruct (sstf_loop_nearest_first (List.length reqs) reqs (reset (__init__ reqs head))
              (le_n _)) as (order & Hchain & Hrun).
  exists order. split; [exact Hchain|].
  unfold run.
  rewrite (simulate_known "SSTF" direction (__init__ reqs head) disk_logic._sstf order
             (path_cost distance head order)).
  - reflexivity.
  - reflexivity.
  - unfold disk_logic._sstf, bind, get_requests. simpl. exact Hrun.
  - apply path_cost_distance_nonneg.
Qed.

(** ** Properties of the engine *)

(** C2. For every request list, empty or not, head and direction
    argument, SSTF as [simulate] runs it services the requests in the one order the
    nearest-first rule prescribes: each time the remaining request at the
    smallest distance from the current head, the earliest one in the
    remaining sequence among equals, which then leaves the remaining
    sequence, exactly that item and no other; the total seek is the sum
    of the distances thus travelled.  Each iteration of the loop does one
    such step, from any engine state.  With requests 82, 170, 43, 140,
    24, 16, 190 and head 50 the order is 43, 24, 16, 82, 140, 170, 190
    and the total seek is 208; with the two equidistant requests 60, 40
    and head 50 the earlier one, 60, is serviced first. *)
Theorem sstf_services_nearest_first
    (reqs : list Z) (head : Z) (direction : string) :
  (exists order,
      nearest_first head reqs order
      /\ (forall order', nearest_first head reqs order' -> order' = order)
      /\ Permutation order reqs
      /\ run "SSTF" direction reqs head
         = Ok (Result (head :: order) (path_cost distance head order)
                 (average_seek_of (path_cost distance head order) (List.length reqs))
                 (throughput_of (path_cost distance head order) (List.length reqs))))
  /\ (forall (fuel : nat) (current_requests : list Z) (self : DiskScheduler),
         current_requests <> [] ->
         exists i next_track,
           first_minimum (distance (head_position self)) current_requests i next_track /\
           disk_logic.sstf_loop (S fuel) current_requests self
           = disk_logic.sstf_loop fuel (without i current_requests)
               (moved self [next_track] (distance (head_position self) next_track)))
  /\ (forall (current_requests : list Z) (self : DiskScheduler),
         exists order,
           nearest_first (head_position self) current_requests order /\
           disk_logic.sstf_loop (List.length current_requests) current_requests self
           = (Ok tt, moved self order (path_cost distance (head_position self) order)))
  /\ (exists avg_seek throughput,
         run "SSTF" "UP" [82; 170; 43; 140; 24; 16; 190] 50
         = Ok (Result [50; 43; 24; 16; 82; 140; 170; 190] 208 avg_seek throughput))
  /\ (exists avg_seek throughput,
         run "SSTF" "UP" [60; 40] 50
         = Ok (Result [50; 60; 40] 30 avg_seek throughput)).
Proof.
  split; [|split; [|split; [|split]]].
  - destruct (sstf_run_nearest_first reqs head direction) as (order & Hchain & Hrun).
    exists order. split; [exact Hchain|].
    split; [intros order' H'; apply (nearest_first_unique _ _ _ _ H' Hchain)|].
    split; [apply (nearest_first_perm _ _ _ Hchain)|exact Hrun].
  - intros fuel current_requests self Hne. apply sstf_loop_step, Hne.
  - intros current_requests self. apply sstf_loop_nearest_first, le_n.
  - eexists _, _. vm_compute. reflexivity.
  - eexists _, _. vm_compute. reflexivity.
Qed.

(** C3. SCAN services the primary group in sweep order, then visits the
    boundary it reaches, then services the other group starting next to
    that boundary: upwards, the requests at or above the head ascending,
    [MAX_TRACK], the requests below the head descending; downwards, the
    requests below the head descending, [MIN_TRACK], the requests at or
    above the head ascending.  With requests 82, 170, 43, 140, 24, 16,
    190 and head 50, upwards: 82, 140, 170, 190, then 199, then 43, 24,
    16, at a total seek of 332. *)
Theorem scan_service_order (reqs : list Z) (head : Z) (d : Direction) :
  (exists upper lower total_seek avg_seek throughput,
      ascending upper /\ Permutation upper (upper_group head reqs) /\
      descending lower /\ Permutation lower (lower_group head reqs) /\
      run "SCAN" (direction_name d) reqs head
      = Ok (Result
              (head :: match d with
                       | UP => upper ++ [MAX_TRACK] ++ lower
                       | DOWN => lower ++ [MIN_TRACK] ++ upper
                       end)
              total_seek avg_seek throughput))
  /\ (exists avg_seek throughput,
         run "SCAN" "UP" [82; 170; 43; 140; 24; 16; 190] 50
         = Ok (Result [50; 82; 140; 170; 190; 199; 43; 24; 16] 332
                 avg_seek throughput)).
Proof.
  split; [|eexists _, _; vm_compute; reflexivity].
  destruct (simulate_recognised SCAN d (__init__ reqs head))
    as (serviced & cost & Hrun & _ & _ & ->).
  exists (sorted false (upper_group head (sorted false reqs))),
         (sorted true (lower_group head (sorted false reqs))).
  eexists _, _, _.
  split; [apply sorted_ascending|].
  split; [apply sorted_group_perm|].
  split; [apply sorted_descending|].
  split; [apply sorted_group_perm|].
  unfold run. change "SCAN"%string with (algorithm_name SCAN).
  rewrite Hrun. cbn [fst initial_head initial_requests __init__].
  destruct d; unfold sweep_sequence.
  - rewrite (rev_sorted false). reflexivity.
  - rewrite (rev_sorted true). reflexivity.
Qed.

(** C4. C-SCAN services the primary group in sweep order, visits the
    boundary it reaches and then the opposite one, and services the other
    group in the direction of the first sweep: ascending both times
    upwards, descending both times downwards.  With requests 82, 170, 43,
    140, 24, 16, 190 and head 50, upwards: 82, 140, 170, 190, then 199
    and 0, then 16, 24, 43, at a total seek of 192. *)
Theorem cscan_service_order (reqs : list Z) (head : Z) (d : Direction) :
  (exists primary secondary total_seek avg_seek throughput,
      match d with
      | UP => ascending primary /\ Permutation primary (upper_group head reqs) /\
              ascending secondary /\ Permutation secondary (lower_group head reqs)
      | DOWN => descending primary /\ Permutation primary (lower_group head reqs) /\
                descending secondary /\ Permutation secondary (upper_group head reqs)
      end /\
      run "C-SCAN" (direction_name d) reqs head
      = Ok (Result
              (head :: primary ++
                 match d with
                 | UP => [MAX_TRACK; MIN_TRACK]
                 | DOWN => [MIN_TRACK; MAX_TRACK]
                 end ++ secondary)
              total_seek avg_seek throughput))
  /\ (exists avg_seek throughput,
         run "C-SCAN" "UP" [82; 170; 43; 140; 24; 16; 190] 50
         = Ok (Result [50; 82; 140; 170; 190; 199; 0; 16; 24; 43] 192
                 avg_seek throughput)).
Proof.
  split.
  - destruct (simulate_recognised C_SCAN d (__init__ reqs head))
      as (serviced & cost & Hrun & _ & _ & ->).
    unfold run. change "C-SCAN"%string with (algorithm_name C_SCAN) at 1.
    rewrite Hrun. cbn [fst initial_head initial_requests __init__].
    destruct d; unfold sweep_sequence.
    + exists (sorted false (upper_group head (sorted false reqs))),
             (sorted false (lower_group head (sorted false reqs))).
      eexists _, _, _.
      split; [|reflexivity].
      repeat split; first [apply sorted_ascending | apply sorted_group_perm].
    + exists (sorted true (lower_group head (sorted false reqs))),
             (sorted true (upper_group head (sorted false reqs))).
      eexists _, _, _.
      split; [|reflexivity].
      repeat split; first [apply sorted_descending | apply sorted_group_perm].
  - eexists _, _. vm_compute. reflexivity.
Qed.

(** C5. Under each of the four algorithms the movement sequence starts
    with the initial head, and what follows is a rearrangement of the
    requests as given, with one boundary track added by SCAN and two by
    C-SCAN: nothing is dropped, nothing is serviced twice, and the length
    is one more than the number of requests, plus one for SCAN and two for
    C-SCAN. *)
Theorem every_request_serviced_once
    (reqs : list Z) (head : Z) (a : Algorithm) (d : Direction) :
  exists serviced total_seek avg_seek throughput,
    run (algorithm_name a) (direction_name d) reqs head
    = Ok (Result (head :: serviced) total_seek avg_seek throughput) /\
    Permutation serviced (reqs ++ boundaries_of a d) /\
    List.length (head :: serviced)
    = (1 + List.length reqs +
       match a with FCFS | SSTF => 0 | SCAN => 1 | C_SCAN => 2 end)%nat.
Proof.
  destruct (simulate_recognised a d (__init__ reqs head))
    as (serviced & cost & Hrun & _ & _ & Hserviced).
  cbn [initial_head initial_requests __init__] in Hrun, Hserviced.
  assert (Permutation serviced (reqs ++ boundaries_of a d)) as HP.
  { destruct a; cbn [boundaries_of].
    - rewrite app_nil_r, Hserviced. reflexivity.
    - rewrite app_nil_r. exact Hserviced.
    - subst serviced. apply sweep_sequence_perm. auto.
    - subst serviced. apply sweep_sequence_perm. auto. }
  exists serviced. eexists _, _, _.
  split; [unfold run; rewrite Hrun; reflexivity|].
  split; [exact HP|].
  apply Permutation_length in HP. simpl. rewrite HP, length_app.
  destruct a, d; simpl; lia.
Qed.

(** C6. A run of any of the four algorithms, on an engine in any state,
    returns its metrics, and no division by zero occurs.  The total seek
    returned is the one the run accumulated in the engine, the sum of what
    each transition of the movement sequence was charged; the average seek
    is that total divided by the number of requests, and 0 when there is
    no request; the throughput is the number of requests divided by that
    total times the time per track, and 0 when the total is 0.  In every
    state of the engine the computation of the metrics returns the seek
    total the engine holds, with the average and the throughput of that
    total, both divisions guarded. *)
Theorem metrics_guard_zero_divisors
    (self : DiskScheduler) (a : Algorithm) (d : Direction) :
  (exists serviced self',
      disk_logic.simulate (algorithm_name a) (direction_name d) self
      = (Ok (Result (initial_head self :: serviced) (total_seek_time self')
               (average_seek_of (total_seek_time self')
                  (List.length (initial_requests self)))
               (throughput_of (total_seek_time self')
                  (List.length (initial_requests self)))),
         self')
      /\ total_seek_time self'
         = path_cost (charge_of a) (initial_head self) serviced
      /\ 0 <= total_seek_time self'
      /\ Permutation serviced (initial_requests self ++ boundaries_of a d))
  /\ disk_logic._calculate_metrics self
     = (Ok (total_seek_time self,
            average_seek_of (total_seek_time self) (List.length (initial_requests self)),
            if total_seek_time self <=? 0 then PyInt 0
            else PyFloat
                   (Qdiv (inject_Z (Z.of_nat (List.length (initial_requests self))))
                         (Qmult (inject_Z (total_seek_time self)) SEEK_TIME_PER_TRACK))),
        self)
  /\ (0 <= total_seek_time self ->
      disk_logic._calculate_metrics self
      = (Ok (total_seek_time self,
             average_seek_of (total_seek_time self) (List.length (initial_requests self)),
             throughput_of (total_seek_time self) (List.length (initial_requests self))),
         self)).
Proof.
  split; [|split].
  - destruct (simulate_recognised a d self)
      as (serviced & cost & Hrun & Hpos & Hcost & Hserviced).
    exists serviced, (moved (reset self) serviced cost).
    split; [exact Hrun|].
    change (total_seek_time (moved (reset self) serviced cost)) with cost.
    split; [exact Hcost|]. split; [exact Hpos|].
    destruct a; cbn [boundaries_of].
    + rewrite app_nil_r, Hserviced. reflexivity.
    + rewrite app_nil_r. exact Hserviced.
    + subst serviced. apply sweep_sequence_perm. auto.
    + subst serviced. apply sweep_sequence_perm. auto.
  - apply calculate_metrics_always.
  - apply calculate_metrics_run.
Qed.

(** C7. With an algorithm name other than the four known ones, whatever the
    direction and the state of the engine, [simulate] returns the failure
    result, four times [None]: it raises nothing, and the engine is left as
    the reset made it, its movement sequence holding the initial head only
    and its seek total 0. *)
Theorem unknown_algorithm_fails
    (algorithm direction : string) (self : DiskScheduler) :
  algorithm <> "FCFS"%string -> algorithm <> "SSTF"%string ->
  algorithm <> "SCAN"%string -> algorithm <> "C-SCAN"%string ->
  disk_logic.simulate algorithm direction self = (Ok AllNone, reset self)
  /\ movement_sequence (reset self) = [initial_head self]
  /\ total_seek_time (reset self) = 0.
Proof.
  intros H1 H2 H3 H4. split; [|split; reflexivity].
  apply simulate_unknown. unfold disk_logic.dispatch.
  apply String.eqb_neq in H1, H2, H3, H4.
  rewrite H1, H2, H3, H4. reflexivity.
Qed.

Lemma unknown_algorithm_fails_witness :
  fst (disk_logic.simulate "LOOK" "UP" (__init__ [82; 170; 43] 50)) = Ok AllNone.
Proof.
  refine (f_equal fst (proj1 (unknown_algorithm_fails "LOOK" "UP" (__init__ [82; 170; 43] 50)
                                _ _ _ _))); discriminate.
Defined.

(** The engine after a call of [simulate], however the call ended, has
    the requests and the head it was constructed with. *)
Lemma simulate_keeps_inputs (algorithm direction : string) (self : DiskScheduler) :
  reset (snd (disk_logic.simulate algorithm direction self)) = reset self.
Proof.
  destruct (disk_logic.dispatch algorithm direction) as [method|] eqn:Hd.
  - assert (exists sequence cost, 0 <= cost /\
              (method (reset self) = (Ok tt, moved (reset self) sequence cost) \/
               method (reset self) = (Raise UnboundLocalError, reset self)))
      as (sequence & cost & Hpos & [Hrun|Hrun]).
    { unfold disk_logic.dispatch in Hd.
      destruct (algorithm =? "FCFS")%string.
      { injection Hd as <-. eexists _, _. split; [|left; apply fcfs_run].
        apply path_cost_distance_nonneg. }
      destruct (algorithm =? "SSTF")%string.
      { injection Hd as <-. destruct (sstf_run self) as (order & _ & Hrun).
        eexists _, _. split; [|left; exact Hrun]. apply path_cost_distance_nonneg. }
      destruct ((algorithm =? "SCAN")%string || (algorithm =? "C-SCAN")%string);
        [|discriminate].
      injection Hd as <-. rewrite scan_or_cscan_run.
      destruct (disk_logic.scan_locals _ _ _ _) as [[[current_list other_list]|] boundaries].
      - eexists _, _. split; [|left; reflexivity]. apply path_cost_scan_nonneg.
      - exists [], 0. split; [lia|right; reflexivity]. }
    + rewrite (simulate_known _ _ _ _ _ _ Hd Hrun Hpos). reflexivity.
    + rewrite (simulate_raises _ _ _ _ _ _ Hd Hrun). reflexivity.
  - rewrite (simulate_unknown _ _ _ Hd). reflexivity.
Qed.

(** What [simulate] returns is determined by the reset engine. *)
Lemma simulate_from_reset (algorithm direction : string) (self1 self2 : DiskScheduler) :
  reset self1 = reset self2 ->
  disk_logic.simulate algorithm direction self1
  = disk_logic.simulate algorithm direction self2.
Proof.
  intros H.
  assert (forall self, disk_logic.simulate algorithm direction self
                       = disk_logic.simulate algorithm direction (reset self)) as Hreset
    by reflexivity.
  rewrite (Hreset self1), (Hreset self2), H. reflexivity.
Qed.

(** C8. On any engine, after any call of [simulate], a second call returns
    what a newly constructed engine with the same requests and head
    returns for it: the result depends on the requests, the head, the
    algorithm and the direction only. *)
Theorem simulate_leaves_no_residue
    (self : DiskScheduler) (algorithm1 direction1 algorithm2 direction2 : string) :
  fst (disk_logic.simulate algorithm2 direction2
         (snd (disk_logic.simulate algorithm1 direction1 self)))
  = run algorithm2 direction2 (initial_requests self) (initial_head self).
Proof.
  unfold run. f_equal. apply simulate_from_reset.
  rewrite simulate_keeps_inputs. reflexivity.
Qed.

(** ** The two copies of [_scan_or_cscan] *)

Lemma seek_loop_copies (algorithm : string) (sequence : list Z) (self : DiskScheduler) :
  disk_sheduling.seek_loop algorithm sequence self
  = disk_logic.seek_loop algorithm sequence self.
Proof.
  revert self. induction sequence as [|t rest IH]; intros self; [reflexivity|].
  cbn [disk_sheduling.seek_loop disk_logic.seek_loop].
  unfold bind at 1 3, get at 1 2. cbv beta iota.
  rewrite !(bind_run _ _ _ _ _ (record_move_run _ _ _)).
  apply IH.
Qed.

(** The same [sequence] is built either way: a list sorted and then
    reversed is the list sorted in the opposite order. *)
Lemma scan_sequence_copies (algorithm direction : string) (lower upper : list Z) :
  match disk_logic.scan_locals algorithm direction lower upper,
        disk_sheduling.scan_locals algorithm direction lower upper with
  | (None, _), (None, _) => True
  | (Some (c1, o1), b1), (Some (c2, o2), b2) =>
      disk_logic.scan_sequence algorithm direction lower upper c1 o1 b1
      = disk_sheduling.scan_sequence algorithm direction lower upper c2 o2 b2
  | _, _ => False
  end.
Proof.
  unfold disk_logic.scan_locals, disk_sheduling.scan_locals,
    disk_logic.scan_sequence, disk_sheduling.scan_sequence.
  destruct (direction =? "UP")%string; [|destruct (direction =? "DOWN")%string];
    try exact I.
  - destruct (algorithm =? "SCAN")%string; [|destruct (algorithm =? "C-SCAN")%string];
      rewrite ?(rev_sorted false); reflexivity.
  - destruct (algorithm =? "SCAN")%string; [|destruct (algorithm =? "C-SCAN")%string];
      rewrite ?(rev_sorted true); reflexivity.
Qed.

Lemma scan_or_cscan_copies
    (algorithm direction : string) (self : DiskScheduler) :
  disk_sheduling._scan_or_cscan algorithm direction self
  = disk_logic._scan_or_cscan algorithm direction self.
Proof.
  unfold disk_sheduling._scan_or_cscan, disk_logic._scan_or_cscan.
  unfold bind, get_requests, get.
  destruct (requests self) as [self_requests|]; [|reflexivity].
  set (lower := filter _ _). set (upper := filter _ _).
  pose proof (scan_sequence_copies algorithm direction lower upper) as H.
  destruct (disk_logic.scan_locals algorithm direction lower upper)
    as [[[c1 o1]|] b1],
    (disk_sheduling.scan_locals algorithm direction lower upper)
    as [[[c2 o2]|] b2]; try contradiction.
  - rewrite H. apply seek_loop_copies.
  - reflexivity.
Qed.

(** C9, as the code has it.  The two copies of [_scan_or_cscan] agree on
    every algorithm name, direction and engine: [disk_logic.py] sorts the
    secondary list and reverses it, [disk_sheduling.py] sorts it in the
    opposite order at once, both before the boundary is appended, so that
    outcome, movement sequence and seek total are the same. *)
Theorem scan_copies_agree
    (algorithm direction : string) (self : DiskScheduler) :
  disk_sheduling._scan_or_cscan algorithm direction self
  = disk_logic._scan_or_cscan algorithm direction self.
Proof. apply scan_or_cscan_copies. Qed.

(** C9, as the claim has it: no request list, head and direction make the
    SCAN movement sequences of the two copies differ. *)
Lemma scan_copies_never_disagree :
  ~ (exists (reqs : list Z) (head : Z) (direction : string),
        movement_sequence
          (snd (disk_sheduling._scan_or_cscan "SCAN" direction (reset (__init__ reqs head))))
        <> movement_sequence
             (snd (disk_logic._scan_or_cscan "SCAN" direction (reset (__init__ reqs head))))).
Proof.
  intros (reqs & head & direction & Hdiff).
  apply Hdiff. rewrite scan_or_cscan_copies. reflexivity.
Qed.

(** ** The seek accounting of C-SCAN *)

Lemma scan_seek_cscan (current next : Z) :
  disk_logic.scan_seek "C-SCAN" current next
  = if boundary_pair current next then 0 else distance current next.
Proof. reflexivity. Qed.

Lemma boundary_pair_distance (current next : Z) :
  boundary_pair current next = true -> distance current next = MAX_TRACK - MIN_TRACK.
Proof.
  unfold boundary_pair, distance, MAX_TRACK, MIN_TRACK.
  intros H. apply orb_true_iff in H.
  destruct H as [H|H]; apply andb_true_iff in H; destruct H as [H1 H2];
    apply Z.eqb_eq in H1, H2; subst; reflexivity.
Qed.

(** On every path, C-SCAN charges the distances travelled less the width
    of the disk for each transition from one boundary to the other,
    wherever on the path it stands. *)
Lemma cscan_cost_all_paths (head : Z) (sequence : list Z) :
  path_cost (disk_logic.scan_seek "C-SCAN") head sequence
  = path_cost distance head sequence
    - (MAX_TRACK - MIN_TRACK) * count_boundary_pairs head sequence.
Proof.
  revert head. induction sequence as [|t rest IH]; intros head.
  - simpl. lia.
  - cbn [path_cost count_boundary_pairs]. rewrite IH, scan_seek_cscan.
    destruct (boundary_pair head t) eqn:E.
    + rewrite (boundary_pair_distance _ _ E). lia.
    + lia.
Qed.

Lemma cscan_cost_off_boundary (b head : Z) (sequence : list Z) :
  b = MIN_TRACK \/ b = MAX_TRACK ->
  Forall (fun t => t <> b) (head :: sequence) ->
  path_cost (disk_logic.scan_seek "C-SCAN") head sequence
  = path_cost distance head sequence.
Proof.
  intros Hb. revert head. induction sequence as [|t rest IH]; intros head Hall.
  - reflexivity.
  - cbn [path_cost]. inversion Hall as [|? ? Hhead Hrest]; subst.
    rewrite (IH t Hrest), scan_seek_cscan.
    inversion Hrest as [|? ? Ht _]; subst.
    replace (boundary_pair head t) with false; [reflexivity|].
    symmetry. unfold boundary_pair.
    destruct Hb as [-> | ->].
    + apply Z.eqb_neq in Hhead, Ht. rewrite Hhead, Ht, !andb_false_r. reflexivity.
    + apply Z.eqb_neq in Hhead, Ht. rewrite Hhead, Ht, !andb_false_r. reflexivity.
Qed.

Lemma cscan_rule_total_split (primary secondary : list Z) (head b1 b2 : Z) :
  cscan_rule_total (S (List.length primary)) head (primary ++ b1 :: b2 :: secondary)
  = path_cost distance head (primary ++ [b1]) + path_cost distance b2 secondary.
Proof.
  revert head. induction primary as [|t rest IH]; intros head.
  - simpl. lia.
  - change (distance head t
            + cscan_rule_total (S (List.length rest)) t (rest ++ b1 :: b2 :: secondary)
            = distance head t + path_cost distance t (rest ++ [b1])
              + path_cost distance b2 secondary).
    rewrite IH. lia.
Qed.

Lemma cscan_cost_split (primary secondary : list Z) (head b1 b2 : Z) :
  boundary_pair b1 b2 = true ->
  path_cost (disk_logic.scan_seek "C-SCAN") head (primary ++ b1 :: b2 :: secondary)
  = path_cost (disk_logic.scan_seek "C-SCAN") head (primary ++ [b1])
    + path_cost (disk_logic.scan_seek "C-SCAN") b2 secondary.
Proof.
  intros Hpair.
  change (primary ++ b1 :: b2 :: secondary) with (primary ++ [b1] ++ b2 :: secondary).
  rewrite app_assoc, !path_cost_app.
  rewrite last_app_default. cbn [last path_cost].
  rewrite (scan_seek_cscan b1 b2), Hpair. lia.
Qed.

Lemma sorted_group_forall (reverse : bool) (f : Z -> bool) (P : Z -> Prop) (reqs : list Z) :
  (forall r, f r = true -> P r) ->
  Forall P (sorted reverse (filter f (sorted false reqs))).
Proof.
  intros Hf. apply Forall_forall. intros r Hin.
  apply Hf. eapply Permutation_in in Hin; [|apply sorted_perm].
  apply filter_In in Hin. apply Hin.
Qed.

Lemma cscan_cost_inside (reqs : list Z) (head : Z) (d : Direction) :
  MIN_TRACK < head ->
  match d with UP => head <= MAX_TRACK | DOWN => head < MAX_TRACK end ->
  let sequence := sweep_sequence C_SCAN d head reqs in
  let primary := match d with
                 | UP => upper_group head reqs
                 | DOWN => lower_group head reqs
                 end in
  path_cost (disk_logic.scan_seek "C-SCAN") head sequence
  = cscan_rule_total (S (List.length primary)) head sequence.
Proof.
  intros Hmin Hmax sequence primary. subst sequence primary.
  unfold sweep_sequence. cbn [app].
  destruct d.
  - replace (List.length (upper_group head reqs))
      with (List.length (sorted false (upper_group head (sorted false reqs))))
      by (apply Permutation_length, sorted_group_perm).
    rewrite cscan_rule_total_split, cscan_cost_split by reflexivity.
    f_equal.
    + apply (cscan_cost_off_boundary MIN_TRACK); [auto|].
      constructor; [lia|]. apply Forall_app. split.
      * apply sorted_group_forall. intros r Hr. apply Z.geb_le in Hr. lia.
      * constructor; [discriminate|constructor].
    + apply (cscan_cost_off_boundary MAX_TRACK); [auto|].
      constructor; [discriminate|].
      apply sorted_group_forall. intros r Hr. apply Z.ltb_lt in Hr. lia.
  - replace (List.length (lower_group head reqs))
      with (List.length (sorted true (lower_group head (sorted false reqs))))
      by (apply Permutation_length, sorted_group_perm).
    rewrite cscan_rule_total_split, cscan_cost_split by reflexivity.
    f_equal.
    + apply (cscan_cost_off_boundary MAX_TRACK); [auto|].
      constructor; [lia|]. apply Forall_app. split.
      * apply sorted_group_forall. intros r Hr. apply Z.ltb_lt in Hr. lia.
      * constructor; [discriminate|constructor].
    + apply (cscan_cost_off_boundary MIN_TRACK); [auto|].
      constructor; [discriminate|].
      apply sorted_group_forall. intros r Hr. apply Z.geb_le in Hr. lia.
Qed.

(** With the head strictly inside the disk (or on [MAX_TRACK] when
    sweeping upwards) the only transition C-SCAN charges nothing for is
    the return stroke: the total is the one the accounting rule gives. *)
Lemma cscan_accounting_inside (reqs : list Z) (head : Z) (d : Direction) :
  MIN_TRACK < head ->
  match d with UP => head <= MAX_TRACK | DOWN => head < MAX_TRACK end ->
  exists serviced avg_seek throughput,
    run "C-SCAN" (direction_name d) reqs head
    = Ok (Result (head :: serviced)
            (cscan_rule_total
               (S (List.length (match d with
                                | UP => upper_group head reqs
                                | DOWN => lower_group head reqs
                                end)))
               head serviced)
            avg_seek throughput).
Proof.
  intros Hmin Hmax.
  destruct (simulate_recognised C_SCAN d (__init__ reqs head))
    as (serviced & cost & Hrun & _ & Hcost & ->).
  cbn [initial_head initial_requests __init__] in Hrun, Hcost.
  eexists _, _, _. unfold run.
  change "C-SCAN"%string with (algorithm_name C_SCAN).
  rewrite Hrun. cbn [fst]. rewrite Hcost.
  change (charge_of C_SCAN) with (disk_logic.scan_seek "C-SCAN").
  rewrite (cscan_cost_inside reqs head d Hmin Hmax). reflexivity.
Qed.

(** C1 at its failing input.  C-SCAN upwards from head 0 (which is
    [MIN_TRACK]) with the one request 199 (which is [MAX_TRACK]) visits
    0, 199, 199, 0 and returns a total seek of 0: the move that services
    the request is charged nothing, as the return stroke is.  The
    accounting rule charges 199 for this sequence. *)
Theorem cscan_service_move_charged_nothing :
  (exists avg_seek throughput,
      run "C-SCAN" "UP" [199] 0 = Ok (Result [0; 199; 199; 0] 0 avg_seek throughput))
  /\ disk_logic.scan_seek "C-SCAN" 0 199 = 0
  /\ count_boundary_pairs 0 [199; 199; 0] = 2
  /\ cscan_rule_total 2 0 [199; 199; 0] = 199.
Proof.
  split; [eexists _, _; vm_compute; reflexivity|].
  repeat split.
Qed.

(** ** The empty request list *)




(** With the head on [MIN_TRACK], the upward sweep of C-SCAN over the
    empty request list is charged nothing, by the value test of the jump,
    where SCAN from the same head charges it 199. *)
Lemma cscan_empty_sweep_charged_nothing :
  run "C-SCAN" "UP" [] 0 = Ok (Result [0; 199; 0] 0 (PyInt 0) (PyInt 0))
  /\ run "SCAN" "UP" [] 0 = Ok (Result [0; 199] 199 (PyInt 0) (PyFloat (Qmake 0 199)))
  /\ distance 0 MAX_TRACK = 199.
Proof. repeat split. Qed.

(** ** Further properties of the engine *)

Lemma run_recognised (a : Algorithm) (d : Direction) (reqs : list Z) (head : Z) :
  exists serviced,
    run (algorithm_name a) (direction_name d) reqs head
    = Ok (Result (head :: serviced)
            (path_cost (charge_of a) head serviced)
            (average_seek_of (path_cost (charge_of a) head serviced) (List.length reqs))
            (throughput_of (path_cost (charge_of a) head serviced) (List.length reqs)))
    /\ Permutation serviced (reqs ++ boundaries_of a d)
    /\ match a with
       | FCFS => serviced = reqs
       | SSTF => True
       | SCAN | C_SCAN => serviced = sweep_sequence a d head reqs
       end.
Proof.
  destruct (simulate_recognised a d (__init__ reqs head))
    as (serviced & cost & Hrun & _ & Hcost & Hserviced).
  cbn [initial_head initial_requests __init__] in Hrun, Hcost, Hserviced.
  exists serviced. unfold run. rewrite Hrun, <- Hcost. split; [reflexivity|].
  destruct a; cbn [boundaries_of].
  - rewrite app_nil_r, Hserviced. auto.
  - rewrite app_nil_r. auto.
  - subst serviced. split; [apply sweep_sequence_perm; auto|reflexivity].
  - subst serviced. split; [apply sweep_sequence_perm; auto|reflexivity].
Qed.

Lemma path_cost_ext (charge1 charge2 : Z -> Z -> Z) (head : Z) (sequence : list Z) :
  (forall current next, charge1 current next = charge2 current next) ->
  path_cost charge1 head sequence = path_cost charge2 head sequence.
Proof.
  intros H. revert head. induction sequence as [|t rest IH]; intros head; simpl.
  - reflexivity.
  - rewrite H, IH. reflexivity.
Qed.

Lemma charge_of_distance (a : Algorithm) (current next : Z) :
  a <> C_SCAN -> charge_of a current next = distance current next.
Proof. destruct a; intros H; try reflexivity. congruence. Qed.

(** X1. FCFS visits the requests in the order they were given, whatever
    the direction argument is, and its total seek is the sum of the
    distances between consecutive entries of the movement sequence. *)
Theorem fcfs_services_in_input_order (reqs : list Z) (head : Z) (direction : string) :
  run "FCFS" direction reqs head
  = Ok (Result (head :: reqs)
          (path_cost distance head reqs)
          (average_seek_of (path_cost distance head reqs) (List.length reqs))
          (throughput_of (path_cost distance head reqs) (List.length reqs))).
Proof.
  unfold run.
  rewrite (simulate_known "FCFS" direction (__init__ reqs head) disk_logic._fcfs reqs
             (path_cost distance head reqs)).
  - reflexivity.
  - reflexivity.
  - apply (fcfs_run (__init__ reqs head)).
  - apply path_cost_distance_nonneg.
Qed.

(** X2. With a direction other than [UP] and [DOWN], SCAN and C-SCAN
    raise [UnboundLocalError] from any engine state, and the engine is
    left as the reset made it: movement sequence holding the initial head
    only, seek total 0. *)
Theorem sweep_with_unknown_direction_raises
    (a : Algorithm) (direction : string) (self : DiskScheduler) :
  a = SCAN \/ a = C_SCAN ->
  direction <> "UP"%string -> direction <> "DOWN"%string ->
  disk_logic.simulate (algorithm_name a) direction self
  = (Raise UnboundLocalError, reset self).
Proof. apply unknown_direction_raises. Qed.

Lemma sweep_with_unknown_direction_raises_witness :
  disk_logic.simulate "SCAN" "up" (__init__ [82; 170; 43] 50)
  = (Raise UnboundLocalError, reset (__init__ [82; 170; 43] 50)).
Proof.
  refine (sweep_with_unknown_direction_raises SCAN "up" (__init__ [82; 170; 43] 50) _ _ _).
  - left; reflexivity.
  - discriminate.
  - discriminate.
Defined.

(** X3. After a run of any of the four algorithms from any engine state,
    the engine holds what was returned: its movement sequence and seek
    total are the returned ones, its head stands on the last entry of the
    movement sequence, and the requests and head it was constructed with
    are unchanged. *)
Theorem engine_holds_what_it_returned
    (self : DiskScheduler) (a : Algorithm) (d : Direction) :
  exists sequence total_seek avg_seek throughput self',
    disk_logic.simulate (algorithm_name a) (direction_name d) self
    = (Ok (Result sequence total_seek avg_seek throughput), self')
    /\ movement_sequence self' = sequence
    /\ total_seek_time self' = total_seek
    /\ head_position self' = last sequence (initial_head self)
    /\ initial_requests self' = initial_requests self
    /\ initial_head self' = initial_head self
    /\ requests self' = Some (initial_requests self).
Proof.
  destruct (simulate_recognised a d self) as (serviced & cost & Hrun & _ & _ & _).
  eexists _, _, _, _, _. split; [exact Hrun|].
  cbn [moved reset movement_sequence total_seek_time head_position
         initial_requests initial_head requests app].
  repeat split.
  rewrite last_cons_default. reflexivity.
Qed.

Lemma boundaries_in_range (a : Algorithm) (d : Direction) :
  Forall in_range (boundaries_of a d).
Proof.
  destruct a, d; cbn [boundaries_of]; repeat constructor;
    unfold MIN_TRACK, MAX_TRACK; lia.
Qed.

(** X4. When the head and every request lie inside the disk, so does every
    entry of the movement sequence each of the four algorithms returns. *)
Theorem movement_stays_inside_the_disk
    (reqs : list Z) (head : Z) (a : Algorithm) (d : Direction) :
  in_range head -> Forall in_range reqs ->
  exists sequence total_seek avg_seek throughput,
    run (algorithm_name a) (direction_name d) reqs head
    = Ok (Result sequence total_seek avg_seek throughput)
    /\ Forall in_range sequence.
Proof.
  intros Hhead Hreqs.
  destruct (run_recognised a d reqs head) as (serviced & Hrun & HP & _).
  eexists _, _, _, _. split; [exact Hrun|].
  constructor; [exact Hhead|].
  eapply Permutation_Forall; [symmetry; exact HP|].
  apply Forall_app. split; [exact Hreqs|apply boundaries_in_range].
Qed.

Lemma movement_stays_inside_the_disk_witness :
  exists sequence total_seek avg_seek throughput,
    run "SCAN" "DOWN" [82; 170; 43] 50
    = Ok (Result sequence total_seek avg_seek throughput)
    /\ Forall in_range sequence.
Proof.
  refine (movement_stays_inside_the_disk [82; 170; 43] 50 SCAN DOWN _ _).
  - unfold in_range, MIN_TRACK, MAX_TRACK. lia.
  - repeat constructor; unfold MIN_TRACK, MAX_TRACK; lia.
Defined.

(** X5. Under FCFS, SSTF and SCAN the returned total seek is the length of
    the returned path: the sum of the distances between consecutive
    entries of the movement sequence, boundary entries included. *)
Theorem total_seek_is_path_length
    (reqs : list Z) (head : Z) (a : Algorithm) (d : Direction) :
  a <> C_SCAN ->
  exists serviced avg_seek throughput,
    run (algorithm_name a) (direction_name d) reqs head
    = Ok (Result (head :: serviced) (path_cost distance head serviced)
            avg_seek throughput).
Proof.
  intros Ha.
  destruct (run_recognised a d reqs head) as (serviced & Hrun & _ & _).
  exists serviced. eexists _, _. rewrite Hrun.
  rewrite (path_cost_ext (charge_of a) distance)
    by (intros; apply charge_of_distance; exact Ha).
  reflexivity.
Qed.

Lemma total_seek_is_path_length_witness :
  exists serviced avg_seek throughput,
    run "SCAN" "UP" [82; 170; 43] 50
    = Ok (Result (50 :: serviced) (path_cost distance 50 serviced) avg_seek throughput).
Proof.
  refine (total_seek_is_path_length [82; 170; 43] 50 SCAN UP _). discriminate.
Defined.

Lemma count_boundary_pairs_cost (head : Z) (sequence : list Z) :
  count_boundary_pairs head sequence
  = path_cost (fun current next => if boundary_pair current next then 1 else 0)
      head sequence.
Proof.
  revert head. induction sequence as [|t rest IH]; intros head; simpl.
  - reflexivity.
  - rewrite IH. reflexivity.
Qed.

Lemma count_boundary_pairs_nonneg (head : Z) (sequence : list Z) :
  0 <= count_boundary_pairs head sequence.
Proof.
  revert head. induction sequence as [|t rest IH]; intros head; simpl; [lia|].
  specialize (IH t). destruct (boundary_pair head t); lia.
Qed.

Lemma count_boundary_pairs_jump (primary secondary : list Z) (head b1 b2 : Z) :
  boundary_pair b1 b2 = true ->
  1 <= count_boundary_pairs head (primary ++ b1 :: b2 :: secondary).
Proof.
  intros Hpair.
  change (primary ++ b1 :: b2 :: secondary) with (primary ++ [b1] ++ b2 :: secondary).
  rewrite app_assoc, count_boundary_pairs_cost, path_cost_app.
  rewrite <- !count_boundary_pairs_cost.
  rewrite last_app_default. cbn [last count_boundary_pairs]. rewrite Hpair.
  pose proof (count_boundary_pairs_nonneg head (primary ++ [b1])).
  pose proof (count_boundary_pairs_nonneg b2 secondary).
  lia.
Qed.

(** X6. Under C-SCAN, for every request list, head and direction, the
    returned total seek is the length of the returned path less the width
    of the disk for each transition of the movement sequence that joins
    the two boundaries; the return stroke is always one of them. *)
Theorem cscan_total_is_path_length_less_boundary_pairs
    (reqs : list Z) (head : Z) (d : Direction) :
  exists serviced avg_seek throughput,
    run "C-SCAN" (direction_name d) reqs head
    = Ok (Result (head :: serviced)
            (path_cost distance head serviced
             - (MAX_TRACK - MIN_TRACK) * count_boundary_pairs head serviced)
            avg_seek throughput)
    /\ 1 <= count_boundary_pairs head serviced.
Proof.
  destruct (run_recognised C_SCAN d reqs head) as (serviced & Hrun & _ & Hseq).
  exists serviced. eexists _, _.
  change (algorithm_name C_SCAN) with "C-SCAN"%string in Hrun.
  change (charge_of C_SCAN) with (disk_logic.scan_seek "C-SCAN") in Hrun.
  rewrite Hrun, cscan_cost_all_paths. split; [reflexivity|].
  subst serviced. unfold sweep_sequence. cbn [app].
  destruct d; apply count_boundary_pairs_jump; reflexivity.
Qed.

Lemma path_cost_reaches (head x : Z) (sequence : list Z) :
  In x sequence -> distance head x <= path_cost distance head sequence.
Proof.
  revert head. induction sequence as [|t rest IH]; intros head Hin; [contradiction|].
  cbn [path_cost]. destruct Hin as [-> | Hin].
  - pose proof (path_cost_distance_nonneg x rest). lia.
  - specialize (IH t Hin). unfold distance in *. lia.
Qed.

(** X7. Under FCFS, SSTF and SCAN the total seek is at least the distance
    from the initial head to any one request: the farthest request bounds
    the total from below. *)
Theorem total_seek_reaches_every_request
    (reqs : list Z) (head r : Z) (a : Algorithm) (d : Direction) :
  a <> C_SCAN -> In r reqs ->
  exists sequence total_seek avg_seek throughput,
    run (algorithm_name a) (direction_name d) reqs head
    = Ok (Result sequence total_seek avg_seek throughput)
    /\ distance head r <= total_seek.
Proof.
  intros Ha Hin.
  destruct (run_recognised a d reqs head) as (serviced & Hrun & HP & _).
  eexists _, _, _, _. split; [exact Hrun|].
  rewrite (path_cost_ext (charge_of a) distance)
    by (intros; apply charge_of_distance; exact Ha).
  apply path_cost_reaches.
  eapply Permutation_in; [symmetry; exact HP|].
  apply in_or_app. left. exact Hin.
Qed.

Lemma total_seek_reaches_every_request_witness :
  exists sequence total_seek avg_seek throughput,
    run "SSTF" "UP" [82; 170; 43] 50
    = Ok (Result sequence total_seek avg_seek throughput)
    /\ distance 50 170 <= total_seek.
Proof.
  refine (total_seek_reaches_every_request [82; 170; 43] 50 170 SSTF UP _ _).
  - discriminate.
  - right; left; reflexivity.
Defined.

(** ** Sweeps as monotone paths *)

Lemma last_in (l : list Z) (d : Z) : l <> [] -> In (last l d) l.
Proof.
  induction l as [|x l IH]; intros Hne; [congruence|].
  destruct l as [|y l]; [left; reflexivity|].
  right. apply IH. discriminate.
Qed.

Lemma monotone_path_cost (reverse : bool) (head : Z) (sequence : list Z) :
  StronglySorted (order_rel reverse) (head :: sequence) ->
  path_cost distance head sequence = distance head (last sequence head).
Proof.
  revert head. induction sequence as [|t rest IH]; intros head Hs.
  - unfold distance. simpl. lia.
  - cbn [path_cost]. rewrite last_cons_default.
    apply StronglySorted_inv in Hs. destruct Hs as [Hrest Hhead].
    rewrite (IH t Hrest).
    assert (order_rel reverse head t) as H1 by (inversion Hhead; assumption).
    assert (order_rel reverse t (last rest t)) as H2.
    { apply StronglySorted_inv in Hrest. destruct Hrest as [_ Ht].
      destruct rest as [|u rest']; [destruct reverse; simpl; lia|].
      rewrite Forall_forall in Ht. apply Ht.
      apply last_in. discriminate. }
    unfold distance. destruct reverse; simpl in H1, H2; lia.
Qed.

Lemma strongly_sorted_snoc (reverse : bool) (l : list Z) (b : Z) :
  StronglySorted (order_rel reverse) l ->
  Forall (fun x => order_rel reverse x b) l ->
  StronglySorted (order_rel reverse) (l ++ [b]).
Proof.
  induction 1 as [|x xs Hxs IH Hx]; intros Hb; simpl.
  - constructor; constructor.
  - inversion Hb; subst. constructor; [auto|].
    apply Forall_app. split; [assumption|]. constructor; [assumption|constructor].
Qed.

Lemma sorted_group_in (reverse : bool) (f : Z -> bool) (reqs : list Z) (r : Z) :
  In r (sorted reverse (filter f (sorted false reqs))) -> In r reqs /\ f r = true.
Proof.
  intros Hin. eapply Permutation_in in Hin; [|apply sorted_perm].
  apply filter_In in Hin. destruct Hin as [Hin Hf]. split; [|exact Hf].
  eapply Permutation_in; [apply sorted_perm|exact Hin].
Qed.

Lemma last_group_cases (reverse : bool) (f : Z -> bool) (reqs : list Z) (b : Z) :
  last (sorted reverse (filter f (sorted false reqs))) b = b
  \/ (In (last (sorted reverse (filter f (sorted false reqs))) b) reqs
      /\ f (last (sorted reverse (filter f (sorted false reqs))) b) = true).
Proof.
  destruct (sorted reverse (filter f (sorted false reqs))) as [|u l] eqn:E.
  - left. reflexivity.
  - right. apply (sorted_group_in reverse). rewrite E. apply last_in. discriminate.
Qed.

(** A sweep from [head] through [primary] to the boundary [b1], then from
    the boundary [b2] through [secondary], both legs monotone. *)
Lemma two_leg_cost (r1 r2 : bool) (head b1 b2 : Z) (primary secondary : list Z) :
  StronglySorted (order_rel r1) (head :: primary ++ [b1]) ->
  StronglySorted (order_rel r2) (b2 :: secondary) ->
  path_cost distance head (primary ++ [b1]) = distance head b1
  /\ path_cost distance b2 secondary = distance b2 (last secondary b2).
Proof.
  intros H1 H2. split.
  - rewrite (monotone_path_cost r1 _ _ H1), last_app_default. reflexivity.
  - apply (monotone_path_cost r2 _ _ H2).
Qed.

Lemma primary_leg_sorted (reverse : bool) (f : Z -> bool) (reqs : list Z) (head b : Z) :
  (forall r, In r reqs -> f r = true -> order_rel reverse head r /\ order_rel reverse r b) ->
  order_rel reverse head b ->
  StronglySorted (order_rel reverse)
    (head :: sorted reverse (filter f (sorted false reqs)) ++ [b]).
Proof.
  intros Hr Hb. constructor.
  - apply strongly_sorted_snoc; [apply sorted_strongly_sorted|].
    apply Forall_forall. intros r Hin. apply sorted_group_in in Hin.
    destruct Hin as [Hin Hf]. apply (Hr r Hin Hf).
  - apply Forall_app. split; [|constructor; [exact Hb|constructor]].
    apply Forall_forall. intros r Hin. apply sorted_group_in in Hin.
    destruct Hin as [Hin Hf]. apply (Hr r Hin Hf).
Qed.

Lemma secondary_leg_sorted (reverse : bool) (f : Z -> bool) (reqs : list Z) (b : Z) :
  (forall r, In r reqs -> f r = true -> order_rel reverse b r) ->
  StronglySorted (order_rel reverse)
    (b :: sorted reverse (filter f (sorted false reqs))).
Proof.
  intros Hr. constructor; [apply sorted_strongly_sorted|].
  apply Forall_forall. intros r Hin. apply sorted_group_in in Hin.
  destruct Hin as [Hin Hf]. apply (Hr r Hin Hf).
Qed.

(** The cost of the two legs of a sweep over in-range requests, for the
    four combinations of sweeping algorithm and direction. *)
Lemma sweep_path_length (a : Algorithm) (d : Direction) (reqs : list Z) (head : Z) :
  a = SCAN \/ a = C_SCAN ->
  in_range head -> Forall in_range reqs ->
  let sequence := sweep_sequence a d head reqs in
  let b1 := match d with UP => MAX_TRACK | DOWN => MIN_TRACK end in
  let b2 := match a with SCAN => b1 | _ =>
              match d with UP => MIN_TRACK | DOWN => MAX_TRACK end end in
  path_cost distance head sequence
  = distance head b1 + distance b1 b2 + distance b2 (last sequence head)
  /\ in_range (last sequence head)
  /\ match a, d with
     | C_SCAN, UP => last sequence head <= head
     | C_SCAN, DOWN => head <= last sequence head
     | _, _ => True
     end.
Proof.
  intros Ha Hhead Hreqs sequence b1 b2.
  rewrite Forall_forall in Hreqs. unfold in_range in *.
  assert (MIN_TRACK <= MAX_TRACK) as Hwidth by (unfold MIN_TRACK, MAX_TRACK; lia).
  assert (forall (r2 : bool) (f : Z -> bool) (b : Z),
             in_range b ->
             in_range (last (sorted r2 (filter f (sorted false reqs))) b)) as Hlast_range.
  { intros r2 f b Hb.
    destruct (last_group_cases r2 f reqs b) as [-> | [Hin _]]; [exact Hb|].
    apply Hreqs, Hin. }
  assert (forall (r2 : bool) (b : Z),
             last (sorted r2 (lower_group head (sorted false reqs))) b = b \/
             last (sorted r2 (lower_group head (sorted false reqs))) b < head) as Hlast_low.
  { intros r2 b. unfold lower_group.
    destruct (last_group_cases r2 (fun r => r <? head) reqs b) as [-> | [_ Hf]];
      [left; reflexivity|].
    right. apply Z.ltb_lt, Hf. }
  assert (forall (r2 : bool) (b : Z),
             last (sorted r2 (upper_group head (sorted false reqs))) b = b \/
             head <= last (sorted r2 (upper_group head (sorted false reqs))) b) as Hlast_up.
  { intros r2 b. unfold upper_group.
    destruct (last_group_cases r2 (fun r => r >=? head) reqs b) as [-> | [_ Hf]];
      [left; reflexivity|].
    right. apply Z.geb_le, Hf. }
  subst sequence b1 b2. unfold sweep_sequence.
  destruct Ha as [-> | ->]; destruct d.
  - (* SCAN, UP *)
    rewrite (rev_sorted false). cbn [negb].
    rewrite app_assoc, path_cost_app, !last_app_default. cbn [last].
    destruct (two_leg_cost false true head MAX_TRACK MAX_TRACK
                (sorted false (upper_group head (sorted false reqs)))
                (sorted true (lower_group head (sorted false reqs)))) as [H1 H2].
    + apply primary_leg_sorted; [|simpl; lia].
      intros r Hin Hf. apply Z.geb_le in Hf. specialize (Hreqs r Hin). simpl. lia.
    + apply secondary_leg_sorted.
      intros r Hin Hf. specialize (Hreqs r Hin). simpl. lia.
    + rewrite H1, H2. split; [unfold distance; lia|]. split; [|exact I].
      apply (Hlast_range true). unfold in_range. lia.
  - (* SCAN, DOWN *)
    rewrite (rev_sorted true). cbn [negb].
    rewrite app_assoc, path_cost_app, !last_app_default. cbn [last].
    destruct (two_leg_cost true false head MIN_TRACK MIN_TRACK
                (sorted true (lower_group head (sorted false reqs)))
                (sorted false (upper_group head (sorted false reqs)))) as [H1 H2].
    + apply primary_leg_sorted; [|simpl; lia].
      intros r Hin Hf. apply Z.ltb_lt in Hf. specialize (Hreqs r Hin). simpl. lia.
    + apply secondary_leg_sorted.
      intros r Hin Hf. specialize (Hreqs r Hin). simpl. lia.
    + rewrite H1, H2. split; [unfold distance; lia|].
      split; [|exact I].
      apply (Hlast_range false). unfold in_range. lia.
  - (* C-SCAN, UP *)
    change ([MAX_TRACK; MIN_TRACK] ++ ?s) with ([MAX_TRACK] ++ MIN_TRACK :: s).
    rewrite app_assoc, path_cost_app, !last_app_default, !last_cons_default.
    cbn [last path_cost].
    destruct (two_leg_cost false false head MAX_TRACK MIN_TRACK
                (sorted false (upper_group head (sorted false reqs)))
                (sorted false (lower_group head (sorted false reqs)))) as [H1 H2].
    + apply primary_leg_sorted; [|simpl; lia].
      intros r Hin Hf. apply Z.geb_le in Hf. specialize (Hreqs r Hin). simpl. lia.
    + apply secondary_leg_sorted.
      intros r Hin Hf. specialize (Hreqs r Hin). simpl. lia.
    + rewrite H1, H2.
      split; [lia|]. split.
      * apply (Hlast_range false). unfold in_range. lia.
      * destruct (Hlast_low false MIN_TRACK) as [-> | Hlt]; lia.
  - (* C-SCAN, DOWN *)
    change ([MIN_TRACK; MAX_TRACK] ++ ?s) with ([MIN_TRACK] ++ MAX_TRACK :: s).
    rewrite app_assoc, path_cost_app, !last_app_default, !last_cons_default.
    cbn [last path_cost].
    destruct (two_leg_cost true true head MIN_TRACK MAX_TRACK
                (sorted true (lower_group head (sorted false reqs)))
                (sorted true (upper_group head (sorted false reqs)))) as [H1 H2].
    + apply primary_leg_sorted; [|simpl; lia].
      intros r Hin Hf. apply Z.ltb_lt in Hf. specialize (Hreqs r Hin). simpl. lia.
    + apply secondary_leg_sorted.
      intros r Hin Hf. specialize (Hreqs r Hin). simpl. lia.
    + rewrite H1, H2.
      split; [lia|]. split.
      * apply (Hlast_range true). unfold in_range. lia.
      * destruct (Hlast_up true MAX_TRACK) as [-> | Hle]; lia.
Qed.

(** X8. For a head and requests inside the disk, the total seek of SCAN is
    the way from the head to the boundary it sweeps to plus the way from
    that boundary to the last entry of the movement sequence; it is never
    more than twice the width of the disk. *)
Theorem scan_total_closed_form (reqs : list Z) (head : Z) (d : Direction) :
  in_range head -> Forall in_range reqs ->
  exists sequence total_seek avg_seek throughput,
    run "SCAN" (direction_name d) reqs head
    = Ok (Result sequence total_seek avg_seek throughput)
    /\ total_seek
       = match d with
         | UP => (MAX_TRACK - head) + (MAX_TRACK - last sequence head)
         | DOWN => (head - MIN_TRACK) + (last sequence head - MIN_TRACK)
         end
    /\ total_seek <= 2 * (MAX_TRACK - MIN_TRACK).
Proof.
  intros Hhead Hreqs.
  destruct (run_recognised SCAN d reqs head) as (serviced & Hrun & _ & ->).
  destruct (sweep_path_length SCAN d reqs head (or_introl eq_refl) Hhead Hreqs)
    as (Hcost & Hlast & _).
  cbv zeta in Hcost, Hlast.
  change (algorithm_name SCAN) with "SCAN"%string in Hrun.
  rewrite (path_cost_ext (charge_of SCAN) distance) in Hrun
    by (intros; apply charge_of_distance; discriminate).
  eexists _, _, _, _. split; [exact Hrun|].
  rewrite last_cons_default, Hcost.
  unfold in_range, distance in *.
  destruct d; lia.
Qed.

Lemma scan_total_closed_form_witness :
  exists sequence total_seek avg_seek throughput,
    run "SCAN" "UP" [82; 170; 43] 50
    = Ok (Result sequence total_seek avg_seek throughput)
    /\ total_seek = (MAX_TRACK - 50) + (MAX_TRACK - last sequence 50)
    /\ total_seek <= 2 * (MAX_TRACK - MIN_TRACK).
Proof.
  refine (scan_total_closed_form [82; 170; 43] 50 UP _ _).
  - unfold in_range, MIN_TRACK, MAX_TRACK. lia.
  - repeat constructor; unfold MIN_TRACK, MAX_TRACK; lia.
Defined.

(** X9. For a head and requests inside the disk, the total seek C-SCAN
    returns is never more than the width of the disk.  When the head
    starts strictly above [MIN_TRACK] and, sweeping down, strictly below
    [MAX_TRACK], it is the way from the head to the first boundary plus
    the way from the second boundary to the last entry of the movement
    sequence. *)
Theorem cscan_total_bounded (reqs : list Z) (head : Z) (d : Direction) :
  in_range head -> Forall in_range reqs ->
  exists sequence total_seek avg_seek throughput,
    run "C-SCAN" (direction_name d) reqs head
    = Ok (Result sequence total_seek avg_seek throughput)
    /\ total_seek <= MAX_TRACK - MIN_TRACK
    /\ (MIN_TRACK < head ->
        match d with UP => True | DOWN => head < MAX_TRACK end ->
        total_seek
        = match d with
          | UP => (MAX_TRACK - head) + (last sequence head - MIN_TRACK)
          | DOWN => (head - MIN_TRACK) + (MAX_TRACK - last sequence head)
          end).
Proof.
  intros Hhead Hreqs.
  destruct (run_recognised C_SCAN d reqs head) as (serviced & Hrun & _ & ->).
  destruct (sweep_path_length C_SCAN d reqs head (or_intror eq_refl) Hhead Hreqs)
    as (Hcost & Hlast & Hside).
  cbv zeta in Hcost, Hlast, Hside.
  change (algorithm_name C_SCAN) with "C-SCAN"%string in Hrun.
  change (charge_of C_SCAN) with (disk_logic.scan_seek "C-SCAN") in Hrun.
  eexists _, _, _, _. split; [exact Hrun|].
  rewrite last_cons_default.
  assert (1 <= count_boundary_pairs head (sweep_sequence C_SCAN d head reqs)) as Hcount
    by (unfold sweep_sequence; cbn [app]; destruct d;
        apply count_boundary_pairs_jump; reflexivity).
  split.
  - rewrite cscan_cost_all_paths, Hcost.
    unfold in_range, distance, MAX_TRACK, MIN_TRACK in *.
    destruct d; nia.
  - intros Hmin Hmax.
    assert (match d with UP => head <= MAX_TRACK | DOWN => head < MAX_TRACK end) as Hmax'
      by (destruct d; [apply Hhead|exact Hmax]).
    rewrite (cscan_cost_inside reqs head d Hmin Hmax').
    clear Hrun Hcount. revert Hcost Hlast Hside. unfold sweep_sequence. cbn [app].
    destruct d.
    + replace (List.length (upper_group head reqs))
        with (List.length (sorted false (upper_group head (sorted false reqs))))
        by (apply Permutation_length, sorted_group_perm).
      rewrite cscan_rule_total_split.
      change (?p ++ MAX_TRACK :: MIN_TRACK :: ?s) with (p ++ [MAX_TRACK] ++ MIN_TRACK :: s).
      rewrite app_assoc, path_cost_app, !last_app_default, !last_cons_default.
      cbn [last path_cost]. intros Hcost Hlast Hside.
      unfold in_range, distance, MAX_TRACK, MIN_TRACK in *. lia.
    + replace (List.length (lower_group head reqs))
        with (List.length (sorted true (lower_group head (sorted false reqs))))
        by (apply Permutation_length, sorted_group_perm).
      rewrite cscan_rule_total_split.
      change (?p ++ MIN_TRACK :: MAX_TRACK :: ?s) with (p ++ [MIN_TRACK] ++ MAX_TRACK :: s).
      rewrite app_assoc, path_cost_app, !last_app_default, !last_cons_default.
      cbn [last path_cost]. intros Hcost Hlast Hside.
      unfold in_range, distance, MAX_TRACK, MIN_TRACK in *. lia.
Qed.

Lemma cscan_total_bounded_witness :
  exists sequence total_seek avg_seek throughput,
    run "C-SCAN" "DOWN" [82; 170; 43] 50
    = Ok (Result sequence total_seek avg_seek throughput)
    /\ total_seek <= MAX_TRACK - MIN_TRACK
    /\ (MIN_TRACK < 50 -> 50 < MAX_TRACK ->
        total_seek = (50 - MIN_TRACK) + (MAX_TRACK - last sequence 50)).
Proof.
  refine (cscan_total_bounded [82; 170; 43] 50 DOWN _ _).
  - unfold in_range, MIN_TRACK, MAX_TRACK. lia.
  - repeat constructor; unfold MIN_TRACK, MAX_TRACK; lia.
Defined.

(** ** The order of the requests *)

Lemma sorted_of_permutation (reverse : bool) (l1 l2 : list Z) :
  Permutation l1 l2 -> sorted reverse l1 = sorted reverse l2.
Proof.
  intros HP. apply (strongly_sorted_unique reverse).
  - apply sorted_strongly_sorted.
  - apply sorted_strongly_sorted.
  - rewrite !sorted_perm. exact HP.
Qed.

(** X10. SCAN and C-SCAN do not depend on the order in which the requests
    are given: two request lists that are rearrangements of one another
    get the same movement sequence and the same metrics. *)
Theorem sweeps_ignore_request_order
    (reqs1 reqs2 : list Z) (head : Z) (a : Algorithm) (d : Direction) :
  a = SCAN \/ a = C_SCAN ->
  Permutation reqs1 reqs2 ->
  run (algorithm_name a) (direction_name d) reqs1 head
  = run (algorithm_name a) (direction_name d) reqs2 head.
Proof.
  intros Ha HP.
  destruct (run_recognised a d reqs1 head) as (s1 & Hrun1 & _ & Hs1).
  destruct (run_recognised a d reqs2 head) as (s2 & Hrun2 & _ & Hs2).
  rewrite Hrun1, Hrun2.
  assert (s1 = s2) as ->.
  { destruct Ha as [-> | ->]; subst s1 s2; unfold sweep_sequence;
      rewrite (sorted_of_permutation false reqs1 reqs2 HP); reflexivity. }
  rewrite (Permutation_length HP). reflexivity.
Qed.

Lemma sweeps_ignore_request_order_witness :
  run "C-SCAN" "UP" [82; 170; 43] 50 = run "C-SCAN" "UP" [43; 82; 170] 50.
Proof.
  refine (sweeps_ignore_request_order [82; 170; 43] [43; 82; 170] 50 C_SCAN UP _ _).
  - right; reflexivity.
  - apply Permutation_sym, (Permutation_cons_append [82; 170] 43).
Defined.

(** ** SSTF with every request on one side of the head *)

Lemma first_minimum_one_side (reverse : bool) (head : Z) (l : list Z) (i : nat) (m : Z) :
  Forall (order_rel reverse head) l ->
  first_minimum (distance head) l i m ->
  order_rel reverse head m /\ Forall (order_rel reverse m) l.
Proof.
  intros Hside (Hi & Hall & _).
  rewrite Forall_forall in Hside.
  assert (order_rel reverse head m) as Hm by (apply Hside; eapply nth_error_In; exact Hi).
  split; [exact Hm|].
  apply Forall_forall. intros r Hin.
  destruct (In_nth_error _ _ Hin) as [j Hj].
  specialize (Hall _ _ Hj). specialize (Hside _ Hin).
  unfold distance in Hall. destruct reverse; simpl in *; lia.
Qed.

Lemma without_incl (l : list Z) (i : nat) (r : Z) : In r (without i l) -> In r l.
Proof.
  unfold without. intros Hin. apply in_app_or in Hin.
  destruct Hin as [Hin|Hin].
  - rewrite <- (firstn_skipn i l). apply in_or_app. left. exact Hin.
  - rewrite <- (firstn_skipn (S i) l). apply in_or_app. right. exact Hin.
Qed.

Lemma sstf_loop_one_side
    (reverse : bool) (fuel : nat) (current_requests : list Z) (self : DiskScheduler) :
  (List.length current_requests <= fuel)%nat ->
  Forall (order_rel reverse (head_position self)) current_requests ->
  disk_logic.sstf_loop fuel current_requests self
  = (Ok tt, moved self (sorted reverse current_requests)
              (path_cost distance (head_position self) (sorted reverse current_requests))).
Proof.
  revert current_requests self.
  induction fuel as [|fuel IH]; intros current_requests self Hlen Hside.
  - destruct current_requests; [|simpl in Hlen; lia].
    simpl. rewrite moved_nil. reflexivity.
  - destruct current_requests as [|x xs].
    + simpl. rewrite moved_nil. reflexivity.
    + destruct (sstf_loop_step fuel (x :: xs) self) as (i & m & Hfirst & Hstep);
        [discriminate|].
      pose proof (without_length _ _ _ (proj1 Hfirst)) as Hl.
      destruct (first_minimum_one_side reverse _ _ _ _ Hside Hfirst) as [Hm Hrest].
      rewrite Hstep, IH.
      * rewrite moved_moved.
        assert (m :: sorted reverse (without i (x :: xs)) = sorted reverse (x :: xs)) as <-.
        { apply (strongly_sorted_unique reverse).
          - constructor; [apply sorted_strongly_sorted|].
            apply Forall_forall. intros r Hin.
            eapply Permutation_in in Hin; [|apply sorted_perm].
            rewrite Forall_forall in Hrest. apply Hrest. eapply without_incl, Hin.
          - apply sorted_strongly_sorted.
          - rewrite !sorted_perm. apply without_perm, Hfirst. }
        reflexivity.
      * simpl in *. lia.
      * apply Forall_forall. intros r Hin. cbn [moved head_position last].
        rewrite Forall_forall in Hrest. apply Hrest. eapply without_incl, Hin.
Qed.

(** X11. When every request lies at or above the head, SSTF services the
    requests in ascending order, and when every request lies at or below
    it, in descending order; either way the total seek is the distance
    from the head to the last track serviced. *)
Theorem sstf_one_sided_is_a_sweep
    (reqs : list Z) (head : Z) (direction : string) (reverse : bool) :
  Forall (order_rel reverse head) reqs ->
  exists order avg_seek throughput,
    run "SSTF" direction reqs head
    = Ok (Result (head :: order) (distance head (last order head)) avg_seek throughput)
    /\ Permutation order reqs
    /\ (if reverse then descending order else ascending order).
Proof.
  intros Hside.
  exists (sorted reverse reqs). eexists _, _.
  split; [|split].
  - unfold run.
    rewrite (simulate_known "SSTF" direction (__init__ reqs head) disk_logic._sstf
               (sorted reverse reqs) (distance head (last (sorted reverse reqs) head))).
    + reflexivity.
    + reflexivity.
    + unfold disk_logic._sstf, bind, get_requests. simpl.
      rewrite (sstf_loop_one_side reverse _ _ (reset (__init__ reqs head)) (le_n _) Hside).
      cbn [head_position reset initial_head __init__].
      rewrite (monotone_path_cost reverse); [reflexivity|].
      constructor; [apply sorted_strongly_sorted|].
      eapply Permutation_Forall; [symmetry; apply sorted_perm|exact Hside].
    + unfold distance. lia.
  - apply sorted_perm.
  - destruct reverse; [apply sorted_descending|apply sorted_ascending].
Qed.

Lemma sstf_one_sided_is_a_sweep_witness :
  exists order avg_seek throughput,
    run "SSTF" "UP" [82; 170; 60] 50
    = Ok (Result (50 :: order) (distance 50 (last order 50)) avg_seek throughput)
    /\ Permutation order [82; 170; 60]
    /\ ascending order.
Proof.
  refine (sstf_one_sided_is_a_sweep [82; 170; 60] 50 "UP" false _).
  repeat constructor; simpl; lia.
Defined.

(** X12. Two calls of [simulate] in a row, with any names and from any
    engine state, leave the engine and the caller with what the second
    call alone gives: the first call is forgotten, in the result and in
    every attribute of the engine. *)
Theorem second_call_overrides_first
    (self : DiskScheduler) (algorithm1 direction1 algorithm2 direction2 : string) :
  disk_logic.simulate algorithm2 direction2
    (snd (disk_logic.simulate algorithm1 direction1 self))
  = disk_logic.simulate algorithm2 direction2 self.
Proof.
  apply simulate_from_reset, simulate_keeps_inputs.
Qed.

(** ** The two copies of the class *)

(** X13. The class in [disk_sheduling.py] and the class in
    [disk_logic.py] are interchangeable: for every algorithm name,
    direction and engine state their [simulate] returns the same result
    or raises the same exception, and leaves the same engine. *)
Theorem class_copies_agree
    (algorithm direction : string) (self : DiskScheduler) :
  disk_sheduling.simulate algorithm direction self
  = disk_logic.simulate algorithm direction self.
Proof.
  unfold disk_sheduling.simulate, disk_logic.simulate,
    disk_sheduling.dispatch, disk_logic.dispatch.
  destruct (algorithm =? "FCFS")%string; [reflexivity|].
  destruct (algorithm =? "SSTF")%string; [reflexivity|].
  destruct ((algorithm =? "SCAN")%string || (algorithm =? "C-SCAN")%string);
    [|reflexivity].
  unfold bind at 1 7, get at 1 4. cbv beta iota.
  unfold bind at 1 6, set_head_position at 1 2. cbv beta iota.
  unfold bind at 1 5, set_requests at 1 2. cbv beta iota.
  unfold bind at 1 4, set_total_seek_time at 1 2. cbv beta iota.
  unfold bind at 1 3, set_movement_sequence at 1 2. cbv beta iota.
  unfold bind at 1 2.
  rewrite scan_or_cscan_copies. reflexivity.
Qed.

(** ** The input fields and the button of [main_gui.py] *)

Lemma first_outside_none (reqs : list Z) :
  main_gui.first_outside reqs = None -> Forall in_range reqs.
Proof.
  induction reqs as [|r rest IH]; intros H; [constructor|].
  cbn [main_gui.first_outside] in H.
  destruct ((MIN_TRACK <=? r) && (r <=? MAX_TRACK)) eqn:E; [|discriminate].
  apply andb_true_iff in E. destruct E as [E1 E2].
  apply Z.leb_le in E1, E2.
  constructor; [split; assumption|apply IH, H].
Qed.

Lemma first_outside_some (reqs : list Z) (r : Z) :
  main_gui.first_outside reqs = Some r -> In r reqs /\ ~ in_range r.
Proof.
  induction reqs as [|t rest IH]; intros H; [discriminate|].
  cbn [main_gui.first_outside] in H.
  destruct ((MIN_TRACK <=? t) && (t <=? MAX_TRACK)) eqn:E; cbn [negb] in H.
  - destruct (IH H) as [Hin Hout]. split; [right; exact Hin|exact Hout].
  - injection H as <-. split; [left; reflexivity|].
    intros [H1 H2]. apply Z.leb_le in H1, H2. rewrite H1, H2 in E. discriminate.
Qed.

Lemma validate_inputs_cases
    (py_int : string -> option Z) (py_strip : string -> string)
    (py_split : string -> list string) (head_var requests_var : string) :
  match main_gui.validate_inputs py_int py_strip py_split head_var requests_var with
  | inr (requests, head) =>
      in_range head /\ requests <> [] /\ Forall in_range requests
      /\ py_int (py_strip head_var) = Some head
      /\ main_gui.parse_requests py_int py_strip (py_split requests_var) = Some requests
  | inl (main_gui.TrackOutOfRange r) =>
      exists requests,
        main_gui.parse_requests py_int py_strip (py_split requests_var) = Some requests
        /\ In r requests /\ ~ in_range r
  | inl main_gui.HeadOutOfRange =>
      exists head, py_int (py_strip head_var) = Some head /\ ~ in_range head
  | inl _ => True
  end.
Proof.
  unfold main_gui.validate_inputs.
  destruct (py_int (py_strip head_var)) as [head|]; [|exact I].
  destruct ((MIN_TRACK <=? head) && (head <=? MAX_TRACK)) eqn:Eh; cbn [negb].
  - apply andb_true_iff in Eh. destruct Eh as [E1 E2]. apply Z.leb_le in E1, E2.
    destruct (main_gui.parse_requests py_int py_strip (py_split requests_var))
      as [requests|]; [|exact I].
    destruct requests as [|r rest]; [exact I|].
    destruct (main_gui.first_outside (r :: rest)) as [t|] eqn:Eo.
    + exists (r :: rest). split; [reflexivity|]. apply first_outside_some, Eo.
    + split; [split; assumption|]. split; [discriminate|].
      split; [apply first_outside_none, Eo|]. split; reflexivity.
  - exists head. split; [reflexivity|].
    intros [H1 H2]. apply Z.leb_le in H1, H2. rewrite H1, H2 in Eh. discriminate.
Qed.

(** X14. Whatever [int], [strip] and [split] do, when [validate_inputs]
    accepts the two entry fields it returns a head inside the disk and a
    request list that is not empty and lies inside the disk; the track it
    names in its out-of-range message is a request outside the disk. *)
Theorem validated_inputs_are_inside_the_disk
    (py_int : string -> option Z) (py_strip : string -> string)
    (py_split : string -> list string) (head_var requests_var : string) :
  match main_gui.validate_inputs py_int py_strip py_split head_var requests_var with
  | inr (requests, head) =>
      in_range head /\ requests <> [] /\ Forall in_range requests
      /\ py_int (py_strip head_var) = Some head
      /\ main_gui.parse_requests py_int py_strip (py_split requests_var) = Some requests
  | inl (main_gui.TrackOutOfRange r) =>
      exists requests,
        main_gui.parse_requests py_int py_strip (py_split requests_var) = Some requests
        /\ In r requests /\ ~ in_range r
  | inl main_gui.HeadOutOfRange =>
      exists head, py_int (py_strip head_var) = Some head /\ ~ in_range head
  | inl _ => True
  end.
Proof. apply validate_inputs_cases. Qed.

Lemma validate_accepts
    (py_int : string -> option Z) (py_strip : string -> string)
    (py_split : string -> list string) (head_var requests_var : string)
    (requests : list Z) (head : Z) :
  main_gui.validate_inputs py_int py_strip py_split head_var requests_var
  = inr (requests, head) ->
  in_range head /\ requests <> [] /\ Forall in_range requests.
Proof.
  intros H.
  pose proof (validate_inputs_cases
                py_int py_strip py_split head_var requests_var) as Hv.
  rewrite H in Hv. tauto.
Qed.

(** X15. Whatever [int], [strip] and [split] do, with one of the four
    algorithm names and one of the two directions the radio buttons
    offer, pressing the button either ends in a message of
    [validate_inputs] or shows the results of the run on the validated
    input: it never reports that the algorithm could not be run, raises
    nothing, and every track of the movement sequence it shows lies inside
    the disk, the first being the validated head. *)
Theorem button_shows_tracks_inside_the_disk
    (py_int : string -> option Z) (py_strip : string -> string)
    (py_split : string -> list string) (head_var requests_var : string)
    (a : Algorithm) (d : Direction) :
  match main_gui.run_simulation py_int py_strip py_split head_var requests_var
          (algorithm_name a) (direction_name d) with
  | Ok (main_gui.InputRejected e) =>
      main_gui.validate_inputs py_int py_strip py_split head_var requests_var = inl e
  | Ok (main_gui.ResultsShown sequence total_seek avg_seek throughput) =>
      exists requests head,
        main_gui.validate_inputs py_int py_strip py_split head_var requests_var
        = inr (requests, head)
        /\ run (algorithm_name a) (direction_name d) requests head
           = Ok (Result sequence total_seek avg_seek throughput)
        /\ hd_error sequence = Some head
        /\ Forall in_range sequence
  | Ok main_gui.CouldNotRun => False
  | Raise _ => False
  | Diverge => False
  end.
Proof.
  unfold main_gui.run_simulation.
  destruct (main_gui.validate_inputs py_int py_strip py_split head_var requests_var)
    as [e|[requests head]] eqn:Ev; [reflexivity|].
  destruct (validate_accepts _ _ _ _ _ _ _ Ev) as (Hhead & _ & Hreqs).
  destruct (run_recognised a d requests head) as (serviced & Hrun & HP & _).
  cbv zeta. unfold run in Hrun. rewrite Hrun.
  exists requests, head. split; [reflexivity|].
  split; [unfold run; exact Hrun|]. split; [reflexivity|].
  constructor; [exact Hhead|].
  eapply Permutation_Forall; [symmetry; exact HP|].
  apply Forall_app. split; [exact Hreqs|apply boundaries_in_range].
Qed.

(** The entry fields as the window opens, read as ASCII text. *)
Lemma button_on_initial_fields :
  main_gui.run_simulation ascii_text.int ascii_text.strip ascii_text.split
    "50" "82, 170, 43, 140, 24, 16, 190" "SSTF" "UP"
  = Ok (main_gui.ResultsShown [50; 43; 24; 16; 82; 140; 170; 190] 208
          (PyFloat (Qmake 208 7)) (PyFloat (Qmake 7 208))).
Proof. vm_compute. reflexivity. Qed.

(** X16. The button handles a wrong algorithm name and a wrong direction
    differently.  On accepted input, an algorithm name other than the
    four ends in the message that the algorithm could not be run, while
    SCAN or C-SCAN with a direction other than [UP] and [DOWN] raises
    [UnboundLocalError] out of the handler. *)
Theorem button_with_unknown_names
    (py_int : string -> option Z) (py_strip : string -> string)
    (py_split : string -> list string)
    (head_var requests_var algorithm_var direction_var : string)
    (requests : list Z) (head : Z) :
  main_gui.validate_inputs py_int py_strip py_split head_var requests_var
  = inr (requests, head) ->
  (algorithm_var <> "FCFS"%string -> algorithm_var <> "SSTF"%string ->
   algorithm_var <> "SCAN"%string -> algorithm_var <> "C-SCAN"%string ->
   main_gui.run_simulation py_int py_strip py_split head_var requests_var
     algorithm_var direction_var = Ok main_gui.CouldNotRun)
  /\ (algorithm_var = "SCAN"%string \/ algorithm_var = "C-SCAN"%string ->
      direction_var <> "UP"%string -> direction_var <> "DOWN"%string ->
      main_gui.run_simulation py_int py_strip py_split head_var requests_var
        algorithm_var direction_var = Raise UnboundLocalError).
Proof.
  intros Hv. unfold main_gui.run_simulation. rewrite Hv. cbv zeta. split.
  - intros H1 H2 H3 H4.
    rewrite simulate_unknown; [reflexivity|].
    unfold disk_logic.dispatch.
    apply String.eqb_neq in H1, H2, H3, H4. rewrite H1, H2, H3, H4. reflexivity.
  - intros Ha Hup Hdown.
    assert (exists a, (a = SCAN \/ a = C_SCAN) /\ algorithm_var = algorithm_name a)
      as (a & Ha' & ->)
      by (destruct Ha as [-> | ->]; [exists SCAN|exists C_SCAN]; auto).
    rewrite (unknown_direction_raises a direction_var _ Ha' Hup Hdown). reflexivity.
Qed.

Lemma button_with_unknown_names_witness :
  main_gui.run_simulation ascii_text.int ascii_text.strip ascii_text.split
    "50" "82, 170, 43" "LOOK" "UP" = Ok main_gui.CouldNotRun
  /\ main_gui.run_simulation ascii_text.int ascii_text.strip ascii_text.split
       "50" "82, 170, 43" "SCAN" "up" = Raise UnboundLocalError.
Proof.
  pose proof (button_with_unknown_names ascii_text.int ascii_text.strip ascii_text.split
                "50" "82, 170, 43") as H.
  split.
  - refine (proj1 (H "LOOK"%string "UP"%string [82; 170; 43] 50 eq_refl) _ _ _ _);
      discriminate.
  - refine (proj2 (H "SCAN"%string "up"%string [82; 170; 43] 50 eq_refl) _ _ _).
    + left; reflexivity.
    + discriminate.
    + discriminate.
Defined.

(** ** The marks of the two plots *)

Lemma enumerate_from_lookup (prefix suffix : list Z) :
  Forall (fun p => nth_error (prefix ++ suffix) (fst p) = Some (snd p))
    (enumerate_from (List.length prefix) suffix).
Proof.
  revert prefix. induction suffix as [|t rest IH]; intros prefix; [constructor|].
  cbn [enumerate_from]. constructor.
  - cbn [fst snd]. rewrite nth_error_app2, Nat.sub_diag by lia. reflexivity.
  - specialize (IH (prefix ++ [t])).
    rewrite <- app_assoc, length_app, Nat.add_1_r in IH. exact IH.
Qed.

Lemma positions_lookup (n i : nat) (v : Z) (y : list Z) :
  List.length y = n -> nth_error y i = Some v ->
  nth_error (map Z.of_nat (seq 0 n)) i = Some (Z.of_nat i).
Proof.
  intros Hn Hi. rewrite nth_error_map, nth_error_seq.
  assert (i < n)%nat as Hlt by (rewrite <- Hn; apply nth_error_Some; congruence).
  apply Nat.ltb_lt in Hlt. rewrite Hlt. reflexivity.
Qed.

Lemma scatter_loop_points (x y served : list Z) (items : list (nat * Z)) :
  Forall (fun p => nth_error x (fst p) = Some (Z.of_nat (fst p))
                   /\ nth_error y (fst p) = Some (snd p)) items ->
  disk_plotter.scatter_loop x y served items
  = Some (map (fun p => (Z.of_nat (fst p), snd p)) (filter (marked served) items)).
Proof.
  induction 1 as [|[i track] rest [Hx Hy] _ IH]; [reflexivity|].
  cbn [disk_plotter.scatter_loop filter]. unfold marked at 1. cbn [fst snd] in *.
  destruct (py_in track served && (0 <? i)%nat).
  - rewrite Hx, Hy, IH. reflexivity.
  - exact IH.
Qed.

Lemma index_all_points (l : list Z) (f : nat -> Z -> Z) (items : list (nat * Z)) :
  Forall (fun p => nth_error l (fst p) = Some (f (fst p) (snd p))) items ->
  index_all l (map fst items) = Some (map (fun p => f (fst p) (snd p)) items).
Proof.
  induction 1 as [|p rest Hp _ IH]; [reflexivity|].
  cbn [map index_all]. rewrite Hp, IH. reflexivity.
Qed.

Lemma marked_tracks (requests l : list Z) (start : nat) :
  (1 <= start)%nat ->
  map snd (filter (marked requests) (enumerate_from start l))
  = filter (fun t => py_in t requests) l.
Proof.
  revert start. induction l as [|t rest IH]; intros start Hstart; [reflexivity|].
  cbn [enumerate_from filter]. unfold marked at 1. cbn [fst snd].
  assert ((0 <? start)%nat = true) as -> by (apply Nat.ltb_lt; lia).
  rewrite andb_true_r.
  destruct (py_in t requests); cbn [map]; rewrite IH by lia; reflexivity.
Qed.

Lemma filter_members (requests : list Z) :
  filter (fun t => py_in t requests) requests = requests.
Proof.
  assert (forall l, (forall t, In t l -> In t requests) ->
                    filter (fun t => py_in t requests) l = l) as H.
  { induction l as [|t rest IH]; intros Hin; [reflexivity|].
    cbn [filter].
    assert (py_in t requests = true) as ->.
    { apply existsb_exists. exists t. split; [apply Hin; left; reflexivity|].
      apply Z.eqb_refl. }
    rewrite IH; [reflexivity|]. intros u Hu. apply Hin. right. exact Hu. }
  apply H. auto.
Qed.

(** X17. For the movement sequence of a run of any of the four
    algorithms, both plots mark the same points and no index is out of
    range; a marked point is a position after the start with the track
    visited there; and the tracks marked are the requests, each as often
    as it was given, together with each appended boundary track that is
    itself among the requests. *)
Theorem plots_mark_the_requests
    (reqs : list Z) (head : Z) (a : Algorithm) (d : Direction) :
  exists sequence total_seek avg_seek throughput points,
    run (algorithm_name a) (direction_name d) reqs head
    = Ok (Result sequence total_seek avg_seek throughput)
    /\ disk_plotter.plot_sequence sequence reqs = Some points
    /\ disk_sheduling.request_x sequence reqs = Some (map fst points)
    /\ disk_sheduling.request_tracks sequence reqs = Some (map snd points)
    /\ Forall (fun p => 1 <= fst p
                        /\ nth_error sequence (Z.to_nat (fst p)) = Some (snd p)) points
    /\ Permutation (map snd points)
         (reqs ++ filter (fun b => py_in b reqs) (boundaries_of a d)).
Proof.
  destruct (run_recognised a d reqs head) as (serviced & Hrun & HP & _).
  set (sequence := head :: serviced) in *.
  set (items := filter (marked reqs) (enumerate_from 0 sequence)).
  assert (Forall (fun p => nth_error sequence (fst p) = Some (snd p))
            (enumerate_from 0 sequence)) as Hy
    by apply (enumerate_from_lookup [] sequence).
  assert (Forall (fun p => nth_error (map Z.of_nat (seq 0 (List.length sequence))) (fst p)
                           = Some (Z.of_nat (fst p)))
            (enumerate_from 0 sequence)) as Hx.
  { eapply Forall_impl; [|exact Hy]. intros p Hp.
    eapply positions_lookup; [reflexivity|exact Hp]. }
  assert (forall (P : nat * Z -> Prop),
             Forall P (enumerate_from 0 sequence) -> Forall P items) as Hitems.
  { intros P HPall. apply Forall_forall. intros p Hin.
    apply filter_In in Hin. rewrite Forall_forall in HPall. apply HPall, Hin. }
  eexists _, _, _, _, (map (fun p => (Z.of_nat (fst p), snd p)) items).
  split; [exact Hrun|].
  split.
  { unfold disk_plotter.plot_sequence. cbv zeta. apply scatter_loop_points.
    apply Forall_forall. intros p Hin. rewrite Forall_forall in Hx, Hy. auto. }
  split.
  { unfold disk_sheduling.request_x, disk_sheduling.request_indices. cbv zeta.
    fold (marked reqs). fold items.
    rewrite (index_all_points _ (fun i _ => Z.of_nat i)) by (apply Hitems, Hx).
    rewrite map_map. reflexivity. }
  split.
  { unfold disk_sheduling.request_tracks, disk_sheduling.request_indices. cbv zeta.
    fold (marked reqs). fold items.
    rewrite (index_all_points _ (fun _ t => t)) by (apply Hitems, Hy).
    rewrite map_map. reflexivity. }
  split.
  { apply Forall_map. apply Forall_forall. intros p Hin. cbn [fst snd].
    rewrite Nat2Z.id. unfold items in Hin. apply filter_In in Hin.
    destruct Hin as [Hin Hm]. rewrite Forall_forall in Hy.
    split; [|apply Hy, Hin].
    unfold marked in Hm. apply andb_true_iff in Hm. destruct Hm as [_ Hpos].
    apply Nat.ltb_lt in Hpos. lia. }
  rewrite map_map. cbn [snd].
  change (map (fun p => snd p) items) with (map snd items).
  unfold items, sequence. cbn [enumerate_from filter].
  unfold marked at 1. cbn [fst snd]. rewrite andb_false_r.
  rewrite marked_tracks by lia.
  rewrite (filter_perm _ _ _ HP), filter_app, filter_members. reflexivity.
Qed.

(** ** The empty request list *)


